(** * Step-by-step QR Code generation: a shallow embedding

    The definitions below follow
    [src/step-by-step-qr-code-generation/instrumented-qrcodegen.ts]
    function by function and keep its names.  JavaScript numbers are
    modelled as [Z]; the bitwise operators go through the 32-bit
    conversions the language prescribes.  Module objects live in a heap,
    because [applyMask] updates them in place and the constructor shares
    one [UnfilledModule] object between all the cells of a row of the grid. *)

From Stdlib Require Import ZArith Lia String List Bool.
From stdpp Require Import base option numbers list fin_maps pmap.

Local Open Scope Z_scope.

(** ** Outcomes of a call *)

(** [Throw] is a JavaScript exception (a [throw "..."] of the source or a
    [TypeError] raised by the runtime).  [Unmodelled] marks behaviour the
    embedding does not follow: an array that grows by a write past its end,
    a floating-point value that is not an integer, a loop that ran out of
    the iteration bound given to it.  No theorem below is about an
    [Unmodelled] run. *)
Inductive Result (A : Type) : Type :=
| Ok (a : A)
| Throw (msg : string)
| Unmodelled.

Arguments Ok {A} a.
Arguments Throw {A} msg.
Arguments Unmodelled {A}.

Definition bindR {A B : Type} (m : Result A) (k : A -> Result B) : Result B :=
  match m with
  | Ok a => k a
  | Throw s => Throw s
  | Unmodelled => Unmodelled
  end.

Notation "'do' x <- m ; k" := (bindR m (fun x => k))
  (at level 10, x pattern, m at level 100, k at level 200).

(** A [for] loop over a list of index values, threading the loop state. *)
Fixpoint forR {I S : Type} (body : I -> S -> Result S) (l : list I) (s : S) : Result S :=
  match l with
  | [] => Ok s
  | i :: l' => do s' <- body i s; forR body l' s'
  end.

(** ** 32-bit integer operators of JavaScript *)

Module Js.

(** [ToUint32]: the value modulo [2^32], taken as a mask of the low 32
    bits (lemma [toUint32_mod] below). *)
Definition toUint32 (z : Z) : Z := Z.land z 0xFFFFFFFF.

(** [ToInt32]: the same 32 bits read as a two's complement number. *)
Definition toInt32 (z : Z) : Z :=
  let u := toUint32 z in if u <? 0x80000000 then u else u - 0x100000000.

(** [a << n] *)
Definition shl (a n : Z) : Z := toInt32 (Z.shiftl (toInt32 a) (n mod 32)).

(** [a >>> n] *)
Definition ushr (a n : Z) : Z := Z.shiftr (toUint32 a) (n mod 32).

(** [a ^ b] *)
Definition xor (a b : Z) : Z := toInt32 (Z.lxor (toInt32 a) (toInt32 b)).

(** [a | b] *)
Definition or (a b : Z) : Z := toInt32 (Z.lor (toInt32 a) (toInt32 b)).

(** [a & b] *)
Definition and (a b : Z) : Z := toInt32 (Z.land (toInt32 a) (toInt32 b)).

(** [Math.floor(a / b)] for integers [a] and [b > 0]. *)
Definition floorDiv (a b : Z) : Z := a / b.

(** [Math.ceil(a / b)] for integers [a] and [b > 0]. *)
Definition ceilDiv (a b : Z) : Z := - ((- a) / b).

(** [a % b]: the remainder takes the sign of the dividend. *)
Definition rem (a b : Z) : Z := Z.rem a b.

(** [x != y] on values that are a boolean or [undefined] ([None]):
    [undefined] is loosely equal to itself only. *)
Definition neq (x y : option bool) : bool :=
  match x, y with
  | Some a, Some b => xorb a b
  | None, None => false
  | _, _ => true
  end.

End Js.

(** [for (let i = lo; i < hi; i++)] visits [range lo hi]. *)
Definition range (lo hi : Z) : list Z := seqZ lo (hi - lo).

(** [for (let i = hi; i >= lo; i--)] visits [rangeDown hi lo]. *)
Definition rangeDown (hi lo : Z) : list Z := rev (seqZ lo (hi - lo + 1)).

(** ** Static members of [QrCode] *)

Definition MIN_VERSION : Z := 1.
Definition MAX_VERSION : Z := 40.

Definition PENALTY_N1 : Z := 3.
Definition PENALTY_N2 : Z := 3.
Definition PENALTY_N3 : Z := 40.
Definition PENALTY_N4 : Z := 10.

Definition getNumRawDataModules (ver : Z) : Result Z :=
  if (ver <? MIN_VERSION) || (ver >? MAX_VERSION) then
    Throw "Version number out of range"
  else
    let result := (16 * ver + 128) * ver + 64 in
    let result :=
      if ver >=? 2 then
        let numAlign := Js.floorDiv ver 7 + 2 in
        let result := result - ((25 * numAlign - 10) * numAlign - 55) in
        if ver >=? 7 then result - 36 else result
      else result in
    Ok result.

Definition getBit (x i : Z) : bool :=
  negb (Js.and (Js.ushr x i) 1 =? 0).

(** ** [ReedSolomonGenerator] *)

Module ReedSolomonGenerator.

Definition multiply (x y : Z) : Result Z :=
  if negb (Js.ushr x 8 =? 0) || negb (Js.ushr y 8 =? 0) then
    Throw "Byte out of range"
  else
    let z :=
      fold_left
        (fun z i =>
           let z := Js.xor (Js.shl z 1) (Js.ushr z 7 * 0x11D) in
           Js.xor z (Js.and (Js.ushr y i) 1 * x))
        (rangeDown 7 0) 0 in
    if negb (Js.ushr z 8 =? 0) then Throw "Assertion error" else Ok z.

(** The object holds one field, the coefficient array. *)
Record t : Type := Build { coefficients : list Z }.

(** Body of the loop over [j] in the constructor:
    [coefs[j] = multiply(coefs[j], root); if (j + 1 < coefs.length) coefs[j] ^= coefs[j + 1];] *)
Definition ctorInner (root : Z) (j : Z) (coefs : list Z) : Result (list Z) :=
  match coefs !! Z.to_nat j with
  | None => Unmodelled
  | Some cj =>
      do m <- multiply cj root;
      let coefs := <[Z.to_nat j := m]> coefs in
      if j + 1 <? Z.of_nat (length coefs) then
        match coefs !! Z.to_nat (j + 1) with
        | None => Unmodelled
        | Some cj1 => Ok (<[Z.to_nat j := Js.xor m cj1]> coefs)
        end
      else Ok coefs
  end.

(** Body of the loop over [i] in the constructor; the state is
    [(coefs, root)]. *)
Definition ctorOuter (_ : Z) (s : list Z * Z) : Result (list Z * Z) :=
  let '(coefs, root) := s in
  do coefs <- forR (ctorInner root) (range 0 (Z.of_nat (length coefs))) coefs;
  do root <- multiply root 0x02;
  Ok (coefs, root).

Definition new (degree : Z) : Result t :=
  if (degree <? 1) || (degree >? 255) then Throw "Degree out of range"
  else
    let coefs := map (fun _ => 0) (range 0 (degree - 1)) ++ [1] in
    do s <- forR ctorOuter (range 0 degree) (coefs, 1);
    Ok (Build (fst s)).

(** Body of the loop over [i] in [getRemainder]:
    [result[i] ^= multiply(this.coefficients[i], factor)]. *)
Definition remInner (coefs : list Z) (factor : Z) (i : Z) (result : list Z)
  : Result (list Z) :=
  match coefs !! Z.to_nat i, result !! Z.to_nat i with
  | Some c, Some r =>
      do m <- multiply c factor;
      Ok (<[Z.to_nat i := Js.xor r m]> result)
  | _, _ => Unmodelled
  end.

(** Body of [for (let b of data)] in [getRemainder]. *)
Definition remOuter (coefs : list Z) (b : Z) (result : list Z) : Result (list Z) :=
  match result with
  | [] => Unmodelled
  | r0 :: rest =>
      let factor := Js.xor b r0 in
      let result := rest ++ [0] in
      forR (remInner coefs factor) (range 0 (Z.of_nat (length result))) result
  end.

Definition getRemainder (g : t) (data : list Z) : Result (list Z) :=
  let result := map (fun _ => 0) (coefficients g) in
  forR (remOuter (coefficients g)) data result.

End ReedSolomonGenerator.

(** ** Helper classes for [QrCode] *)

(** [ErrorCorrectionLevel] has a private constructor and four instances. *)
Inductive ErrorCorrectionLevel : Type := LOW | MEDIUM | QUARTILE | HIGH.

Definition ordinal (ecl : ErrorCorrectionLevel) : Z :=
  match ecl with LOW => 0 | MEDIUM => 1 | QUARTILE => 2 | HIGH => 3 end.

Definition formatBits (ecl : ErrorCorrectionLevel) : Z :=
  match ecl with LOW => 1 | MEDIUM => 0 | QUARTILE => 3 | HIGH => 2 end.

(** ** Hierarchy of classes for modules

    The concrete classes of the source.  [Module] and [FunctionModule] are
    abstract; [FilledModule] itself is instantiated by [makeMask]. *)
Inductive ModuleClass : Type :=
| UnfilledModule
| FilledModule
| FinderModule
| SeparatorModule
| AlignmentModule
| FormatInfoModule
| VersionInfoModule
| TimingModule
| BlackModule
| CodewordModule
| RemainderModule.

(** [m instanceof UnfilledModule] *)
Definition instanceofUnfilled (c : ModuleClass) : bool :=
  match c with UnfilledModule => true | _ => false end.

(** [m instanceof FilledModule]: every class but [UnfilledModule] extends it. *)
Definition instanceofFilled (c : ModuleClass) : bool :=
  match c with UnfilledModule => false | _ => true end.

(** [m instanceof FunctionModule] *)
Definition instanceofFunction (c : ModuleClass) : bool :=
  match c with
  | FinderModule | SeparatorModule | AlignmentModule | FormatInfoModule
  | VersionInfoModule | TimingModule | BlackModule => true
  | _ => false
  end.

(** [m instanceof CodewordModule] *)
Definition instanceofCodeword (c : ModuleClass) : bool :=
  match c with CodewordModule => true | _ => false end.

(** A module object: its class and the two fields of [FilledModule].  A
    field the object does not have reads as [undefined], here [None]. *)
Record Module : Type := mkModule {
  cls : ModuleClass;
  color : option bool;
  isNew : option bool
}.

(** [new UnfilledModule()] *)
Definition newUnfilled : Module :=
  {| cls := UnfilledModule; color := None; isNew := None |}.

(** [new C(color)] for a class [C] below [FilledModule]; [isNew] starts true. *)
Definition newFilled (c : ModuleClass) (col : bool) : Module :=
  {| cls := c; color := Some col; isNew := Some true |}.

(** [SeparatorModule], [BlackModule] and [RemainderModule] fix the colour
    in their constructors. *)
Definition newSeparator : Module := newFilled SeparatorModule false.
Definition newBlack : Module := newFilled BlackModule true.
Definition newRemainder : Module := newFilled RemainderModule false.

(** ** The object store *)

Definition loc : Type := positive.

Record Heap : Type := mkHeap {
  objs : Pmap Module;
  next : loc
}.

Definition emptyHeap : Heap := {| objs := ∅; next := 1%positive |}.

Definition alloc (o : Module) (h : Heap) : loc * Heap :=
  (next h, {| objs := <[next h := o]> (objs h); next := Pos.succ (next h) |}).

Definition deref (h : Heap) (r : loc) : option Module := objs h !! r.

(** Assignment to the [color] field of the object at [r]. *)
Definition setColor (r : loc) (c : bool) (h : Heap) : Heap :=
  {| objs := alter (fun o => {| cls := cls o; color := Some c; isNew := isNew o |}) r (objs h);
     next := next h |}.

(** ** The [QrCode] object

    The object and its arrays of columns are never shared, so they are
    passed along as a value; the cells hold references into the heap. *)
Record QrCode : Type := mkQrCode {
  version : Z;
  errorCorrectionLevel : ErrorCorrectionLevel;
  size : Z;
  modules : list (list loc)
}.

Definition State : Type := QrCode * Heap.

(** [this.modules[x][y]] as an rvalue.  Reading a column that does not
    exist is a [TypeError]; reading past the end of a column (or at a
    negative index) gives [undefined], here [None]. *)
Definition getModule (qr : QrCode) (x y : Z) : Result (option loc) :=
  if (x <? 0) then Throw "TypeError"
  else match modules qr !! Z.to_nat x with
       | None => Throw "TypeError"
       | Some col => if y <? 0 then Ok None else Ok (col !! Z.to_nat y)
       end.

(** [this.modules[x][y] = r]. *)
Definition setModule (qr : QrCode) (x y : Z) (r : loc) : Result QrCode :=
  if (x <? 0) then Throw "TypeError"
  else match modules qr !! Z.to_nat x with
       | None => Throw "TypeError"
       | Some col =>
           if (0 <=? y) && (y <? Z.of_nat (length col)) then
             Ok {| version := version qr;
                   errorCorrectionLevel := errorCorrectionLevel qr;
                   size := size qr;
                   modules := <[Z.to_nat x := <[Z.to_nat y := r]> col]> (modules qr) |}
           else Unmodelled
       end.

(** [this.modules[x][y] = new C(...)] *)
Definition putNew (x y : Z) (o : Module) (st : State) : Result State :=
  let '(qr, h) := st in
  let '(r, h') := alloc o h in
  do qr' <- setModule qr x y r;
  Ok (qr', h').

(** The class of the object in a cell, for the [instanceof] tests.
    [undefined] is an instance of nothing. *)
Definition classAt (st : State) (x y : Z) : Result (option ModuleClass) :=
  let '(qr, h) := st in
  do r <- getModule qr x y;
  match r with
  | None => Ok None
  | Some r =>
      match deref h r with
      | None => Unmodelled
      | Some o => Ok (Some (cls o))
      end
  end.

Module QrCode.

(** The constructor.  [column.slice()] copies the array of references,
    not the objects: the cells [(x, y)] of all columns [x] share the
    [y]-th [UnfilledModule]. *)
Definition new (version : Z) (ecl : ErrorCorrectionLevel) (h : Heap) : Result State :=
  let size := version * 4 + 17 in
  let '(column, h) :=
    fold_left
      (fun (s : list loc * Heap) (_ : Z) =>
         let '(column, h) := s in
         let '(r, h) := alloc newUnfilled h in
         (column ++ [r], h))
      (range 0 size) ([], h) in
  let modules :=
    fold_left (fun (ms : list (list loc)) (_ : Z) => ms ++ [column]) (range 0 size) [] in
  Ok ({| version := version; errorCorrectionLevel := ecl; size := size;
         modules := modules |}, h).

Definition drawTimingPatterns (st : State) : Result State :=
  forR (fun i st =>
          do st <- putNew 6 i (newFilled TimingModule (Js.rem i 2 =? 0)) st;
          putNew i 6 (newFilled TimingModule (Js.rem i 2 =? 0)) st)
       (range 0 (size (fst st))) st.

Definition drawFinderPatterns (st : State) : Result State :=
  let sz := size (fst st) in
  let centers := [(3, 3); (sz - 4, 3); (3, sz - 4)] in
  forR (fun '(cx, cy) st =>
    forR (fun dy st =>
      forR (fun dx st =>
        let dist := Z.max (Z.abs dx) (Z.abs dy) in
        let x := cx + dx in
        let y := cy + dy in
        if negb ((0 <=? x) && (x <? sz) && (0 <=? y) && (y <? sz)) then Ok st
        else if dist <=? 3 then
          putNew x y (newFilled FinderModule (negb (dist =? 2) && negb (dist =? 4))) st
        else putNew x y newSeparator st)
      (range (-4) 5) st)
    (range (-4) 5) st)
  centers st.

(** The loop that fills [alignPatPos]: [n] iterations remain. *)
Fixpoint alignPositions (n : nat) (pos step : Z) (alignPatPos : list Z) : list Z :=
  match n with
  | O => alignPatPos
  | S n' =>
      (* alignPatPos.splice(1, 0, pos) *)
      alignPositions n' (pos - step) step (take 1 alignPatPos ++ pos :: drop 1 alignPatPos)
  end.

(** [alignPatPos.forEach((v, i) => ...)]: the elements with their indices. *)
Definition indexed {A : Type} (l : list A) : list (Z * A) :=
  zip (range 0 (Z.of_nat (length l))) l.

Definition drawAlignmentPatterns (st : State) : Result State :=
  let qr := fst st in
  if version qr =? 1 then Ok st
  else
    let numAlign := Js.floorDiv (version qr) 7 + 2 in
    if numAlign * 2 - 2 <=? 0 then Unmodelled
    else
      let step := if version qr =? 32 then 26
                  else Js.ceilDiv (size qr - 13) (numAlign * 2 - 2) * 2 in
      let alignPatPos :=
        alignPositions (Z.to_nat (numAlign - 1)) (size qr - 7) step [6] in
      forR (fun '(i, cx) st =>
        forR (fun '(j, cy) st =>
          if (i =? 0) && (j =? 0) || (i =? 0) && (j =? numAlign - 1)
             || (i =? numAlign - 1) && (j =? 0) then Ok st
          else
            forR (fun dy st =>
              forR (fun dx st =>
                putNew (cx + dx) (cy + dy)
                  (newFilled AlignmentModule
                     (negb (Z.max (Z.abs dx) (Z.abs dy) =? 1))) st)
              (range (-2) 3) st)
            (range (-2) 3) st)
        (indexed alignPatPos) st)
      (indexed alignPatPos) st.

(** The value of the local [bits] of [drawFormatBits]. *)
Definition formatBitsField (ecl : ErrorCorrectionLevel) (mask : Z) : Z :=
  if negb (mask =? -1) then
    let data := Js.or (Js.shl (formatBits ecl) 3) mask in
    let rem :=
      fold_left (fun rem _ => Js.xor (Js.shl rem 1) (Js.ushr rem 9 * 0x537))
                (range 0 10) data in
    Js.xor (Js.or (Js.shl data 10) rem) 0x5412
  else 0.

Definition drawFormatBits (mask : Z) (st : State) : Result State :=
  let bits := formatBitsField (errorCorrectionLevel (fst st)) mask in
  if negb (Js.ushr bits 15 =? 0) then Throw "Assertion error"
  else
    let sz := size (fst st) in
    let fmt i := newFilled FormatInfoModule (getBit bits i) in
    do st <- forR (fun i st => putNew 8 i (fmt i) st) (range 0 6) st;
    do st <- putNew 8 7 (fmt 6) st;
    do st <- putNew 8 8 (fmt 7) st;
    do st <- putNew 7 8 (fmt 8) st;
    do st <- forR (fun i st => putNew (14 - i) 8 (fmt i) st) (range 9 15) st;
    do st <- forR (fun i st => putNew (sz - 1 - i) 8 (fmt i) st) (range 0 8) st;
    do st <- forR (fun i st => putNew 8 (sz - 15 + i) (fmt i) st) (range 8 15) st;
    putNew 8 (sz - 8) newBlack st.

(** The value of the local [bits] of [drawVersionInformation]. *)
Definition versionBitsField (version : Z) : Z :=
  let rem :=
    fold_left (fun rem _ => Js.xor (Js.shl rem 1) (Js.ushr rem 11 * 0x1F25))
              (range 0 12) version in
  Js.or (Js.shl version 12) rem.

Definition drawVersionInformation (st : State) : Result State :=
  let qr := fst st in
  if version qr <? 7 then Ok st
  else
    let bits := versionBitsField (version qr) in
    if negb (Js.ushr bits 18 =? 0) then Throw "Assertion error"
    else
      forR (fun i st =>
              let bt := getBit bits i in
              let a := size qr - 11 + Js.rem i 3 in
              let b := Js.floorDiv i 3 in
              do st <- putNew a b (newFilled VersionInfoModule bt) st;
              putNew b a (newFilled VersionInfoModule bt) st)
           (range 0 18) st.

(** Body of the two inner loops of [makeZigZagScan] for one value of
    [right], after the adjustment [if (right == 6) right = 5]. *)
Definition scanStrip (st : State) (right : Z) : Result (list (Z * Z)) :=
  let sz := size (fst st) in
  forR (fun vert result =>
    forR (fun j result =>
      let x := right - j in
      let upward := Js.and (right + 1) 2 =? 0 in
      let y := if upward then sz - 1 - vert else vert in
      do c <- classAt st x y;
      match c with
      | Some UnfilledModule => Ok ((x, y) :: result)
      | _ => Ok result
      end)
    (range 0 2) result)
  (range 0 sz) [].

(** The loop over [right], which also assigns to its own counter.  Each
    turn lowers [right] by at least two, so [fuel] turns are enough when
    [fuel] exceeds the first value of [right]. *)
Fixpoint scanStrips (fuel : nat) (st : State) (right : Z) : Result (list (Z * Z)) :=
  match fuel with
  | O => Unmodelled
  | S fuel' =>
      if right >=? 1 then
        let right := if right =? 6 then 5 else right in
        do strip <- scanStrip st right;
        do others <- scanStrips fuel' st (right - 2);
        Ok (rev strip ++ others)
      else Ok []
  end.

(** [result.push] appends; a strip is collected in reverse and turned
    round once, which gives the same array. *)
Definition makeZigZagScan (st : State) : Result (list (Z * Z)) :=
  scanStrips (S (Z.to_nat (size (fst st)))) st (size (fst st) - 1).

(** [zigZagScan.forEach((xy, i) => ...)] from index [i] on. *)
Fixpoint forEachFrom {A S : Type} (body : A -> Z -> S -> Result S)
    (i : Z) (l : list A) (s : S) : Result S :=
  match l with
  | [] => Ok s
  | a :: l' => do s' <- body a i s; forEachFrom body (i + 1) l' s'
  end.

Definition drawCodewords (data : list Z) (zigZagScan : list (Z * Z)) (st : State)
  : Result State :=
  do raw <- getNumRawDataModules (version (fst st));
  let len := Z.of_nat (length data) in
  if negb (len =? Js.floorDiv raw 8) then Throw "Invalid argument"
  else
    forEachFrom (fun '(x, y) i st =>
      if i <? len * 8 then
        match data !! Z.to_nat (Js.ushr i 3) with
        | None => Unmodelled
        | Some b =>
            putNew x y (newFilled CodewordModule (getBit b (7 - Js.and i 7))) st
        end
      else putNew x y newRemainder st)
    0 zigZagScan st.

(** The [switch (mask)] of [makeMask]. *)
Definition maskInvert (mask x y : Z) : Result bool :=
  match mask with
  | 0 => Ok (Js.rem (x + y) 2 =? 0)
  | 1 => Ok (Js.rem y 2 =? 0)
  | 2 => Ok (Js.rem x 3 =? 0)
  | 3 => Ok (Js.rem (x + y) 3 =? 0)
  | 4 => Ok (Js.rem (Js.floorDiv x 3 + Js.floorDiv y 2) 2 =? 0)
  | 5 => Ok (Js.rem (x * y) 2 + Js.rem (x * y) 3 =? 0)
  | 6 => Ok (Js.rem (Js.rem (x * y) 2 + Js.rem (x * y) 3) 2 =? 0)
  | 7 => Ok (Js.rem (Js.rem (x + y) 2 + Js.rem (x * y) 3) 2 =? 0)
  | _ => Throw "Assertion error"
  end.

(** [this.makeMask(mask)]: [this] is only read; the state threaded
    through the loops is the new grid [result] and the heap. *)
Definition makeMask (mask : Z) (this : QrCode) (h : Heap) : Result State :=
  do result <- new (version this) (errorCorrectionLevel this) h;
  forR (fun x result =>
    forR (fun y (result : State) =>
      do invert <- maskInvert mask x y;
      do c <- classAt (this, snd result) x y;
      if negb (match c with Some c => instanceofFunction c | None => false end) then
        putNew x y (newFilled FilledModule invert) result
      else Ok result)
    (range 0 (size this)) result)
  (range 0 (size this)) result.

(** [this.applyMask(mask)]: the grid of [this] keeps its references; the
    objects they point to are updated in the heap. *)
Definition applyMask (mask : QrCode) (this : QrCode) (h : Heap) : Result Heap :=
  forR (fun x h =>
    forR (fun y h =>
      do ra <- getModule mask x y;
      match ra with
      | None => Ok h
      | Some ra =>
          match deref h ra with
          | None => Unmodelled
          | Some a =>
              if instanceofFilled (cls a) then
                do rb <- getModule this x y;
                match rb with
                | None => Throw "TypeError"
                | Some rb =>
                    match deref h rb with
                    | None => Unmodelled
                    | Some b => Ok (setColor rb (Js.neq (color b) (color a)) h)
                    end
                end
              else Ok h
          end
      end)
    (range 0 (size this)) h)
  (range 0 (size this)) h.

(** *** [computePenalties], the part that yields [numBlackModules] and
    [penaltyPoints[3]]

    The runs, the two-by-two boxes and the finder-like patterns (rules 1
    to 3) write to other fields of the [PenaltyInfo] and are not part of
    this embedding. *)

(** [cell instanceof FilledModule && cell.color], then used as a condition. *)
Definition cellColor (h : Heap) (r : loc) : Result bool :=
  match deref h r with
  | None => Unmodelled
  | Some cell =>
      Ok (instanceofFilled (cls cell)
          && match color cell with Some c => c | None => false end)
  end.

(** [this.modules.map(column => column.map(...))] *)
Definition colors (st : State) : Result (list (list bool)) :=
  let '(qr, h) := st in
  forR (fun column acc =>
          do col <- forR (fun r acc => do c <- cellColor h r; Ok (acc ++ [c])) column [];
          Ok (acc ++ [col]))
       (modules qr) [].

(** The two loops that count [black]. *)
Definition countBlack (colors : list (list bool)) : Z :=
  fold_left (fun black column =>
               fold_left (fun black (color : bool) => if color then black + 1 else black)
                         column black)
            colors 0.

(** [while (Math.abs(black * 20 - total * 10) > (k + 1) * total) k++;] *)
Fixpoint rule4Loop (fuel : nat) (black total k : Z) : Result Z :=
  if Z.abs (black * 20 - total * 10) >? (k + 1) * total then
    match fuel with
    | O => Unmodelled
    | S fuel' => rule4Loop fuel' black total (k + 1)
    end
  else Ok k.

(** [numBlackModules] and [penaltyPoints[3]] of the returned
    [PenaltyInfo].  The loop is given as many turns as the value it
    compares against: with [total >= 1] it stops before. *)
Definition computePenalties_rule4 (st : State) : Result (Z * Z) :=
  do colors <- colors st;
  let black := countBlack colors in
  let total := size (fst st) * size (fst st) in
  do k <- rule4Loop (Z.to_nat (Z.abs (black * 20 - total * 10))) black total 0;
  Ok (black, 0 + k * PENALTY_N4).

End QrCode.

(** * Specification vocabulary

    Definitions the statements below are written with: well-formed grids,
    the reading of cells, the steps before data placement, and decision
    procedures for the properties of a concrete grid. *)

Arguments range : simpl never.

Definition isByte (z : Z) : Prop := 0 <= z <= 255.

(** Doubling in GF(2^8) modulo 0x11D, on plain integers. *)
Definition gfDouble (z : Z) : Z :=
  if Z.testbit z 7 then Z.lxor (2 * z) 0x11D else 2 * z.

Definition gfStep (x y : Z) (z i : Z) : Z :=
  Z.lxor (gfDouble z) (if Z.testbit y i then x else 0).

Definition gfMul (x y : Z) : Z := fold_left (gfStep x y) (rangeDown 7 0) 0.

(** Exhaustive checks over a range, stated for arbitrary functions. *)
Definition agreeChecks (f g : Z -> Z) (lo hi : Z) : bool :=
  forallb (fun z => (f z =? g z) && (0 <=? g z) && (g z <? 256)) (range lo hi).

Definition symChecks (f : Z -> Z -> Z) (lo hi : Z) : bool :=
  forallb (fun x => forallb (fun y => f x y =? f y x) (range lo hi)) (range lo hi).

Definition unitChecks (f : Z -> Z -> Z) (lo hi : Z) : bool :=
  forallb (fun x => (f x 1 =? x) && (f x 0 =? 0)) (range lo hi).

(** The capacity as section 4.1 of the specification words it. *)
Definition rawDataModulesSpec (v : Z) : Z :=
  let a := v / 7 + 2 in
  (16 * v + 128) * v + 64
  - (if 2 <=? v then (25 * a - 10) * a - 55 else 0)
  - (if 7 <=? v then 36 else 0).

(** Every cell of the grid refers to an object of the heap. *)
Definition validRefs (st : State) : Prop :=
  Forall (Forall (fun r => is_Some (deref (snd st) r))) (modules (fst st)).

(** A dark cell: a filled module whose colour is [true]. *)
Definition isDark (h : Heap) (r : loc) : bool :=
  match deref h r with
  | Some o => instanceofFilled (cls o) && match color o with Some c => c | None => false end
  | None => false
  end.

Definition numDark (st : State) : Z :=
  Z.of_nat (length (filter (fun r => isDark (snd st) r = true) (concat (modules (fst st))))).

(** The coordinates of the grid. *)
Definition inGrid (qr : QrCode) (x y : Z) : Prop :=
  0 <= x < size qr /\ 0 <= y < size qr.

(** Objects as the constructors of the source build them: a filled module
    has a colour. *)
Definition wfObj (o : Module) : Prop :=
  instanceofFilled (cls o) = true -> is_Some (color o).

(** A reference of the grid points below the allocation mark, to an
    object. *)
Definition wfRef (h : Heap) (r : loc) : Prop :=
  (r < next h)%positive /\ exists o, deref h r = Some o /\ wfObj o.

(** The grid is a square of side [size], the side the constructor gives
    it, and its cells hold references to objects of the heap. *)
Definition wf (st : State) : Prop :=
  size (fst st) = version (fst st) * 4 + 17
  /\ length (modules (fst st)) = Z.to_nat (size (fst st))
  /\ Forall (fun col => length col = Z.to_nat (size (fst st))
                        /\ Forall (wfRef (snd st)) col) (modules (fst st)).

(** The object a cell refers to. *)
Definition moduleAt (st : State) (x y : Z) : option Module :=
  match getModule (fst st) x y with
  | Ok (Some r) => deref (snd st) r
  | _ => None
  end.

(** [st'] comes after [st]: same grid parameters, and the objects that
    existed are unchanged. *)
Definition extends (st st' : State) : Prop :=
  version (fst st') = version (fst st)
  /\ errorCorrectionLevel (fst st') = errorCorrectionLevel (fst st)
  /\ size (fst st') = size (fst st)
  /\ (next (snd st) <= next (snd st'))%positive
  /\ forall r, (r < next (snd st))%positive -> deref (snd st') r = deref (snd st) r.

(** The result of a write into the grid. *)
Record putSpec (x y : Z) (o : Module) (st st' : State) : Prop := {
  put_wf : wf st';
  put_extends : extends st st';
  put_next : next (snd st') = Pos.succ (next (snd st));
  put_here : getModule (fst st') x y = Ok (Some (next (snd st)))
             /\ deref (snd st') (next (snd st)) = Some o;
  put_there : forall x' y', (x', y') <> (x, y) ->
                            getModule (fst st') x' y' = getModule (fst st) x' y'
}.

(** The bits of the cells of [scan] that hold a [CodewordModule], in the
    order of [scan]. *)
Definition readBits (st : State) (scan : list (Z * Z)) : list bool :=
  flat_map (fun xy =>
              match moduleAt st (fst xy) (snd xy) with
              | Some o =>
                  if instanceofCodeword (cls o)
                  then [match color o with Some c => c | None => false end]
                  else []
              | None => []
              end) scan.

(** Eight bits, most significant first, as a number. *)
Definition byteOfBits (b7 b6 b5 b4 b3 b2 b1 b0 : bool) : Z :=
  fold_left (fun acc (b : bool) => 2 * acc + (if b then 1 else 0))
            [b7; b6; b5; b4; b3; b2; b1; b0] 0.

Fixpoint packBytes (bits : list bool) : list Z :=
  match bits with
  | b7 :: b6 :: b5 :: b4 :: b3 :: b2 :: b1 :: b0 :: rest =>
      byteOfBits b7 b6 b5 b4 b3 b2 b1 b0 :: packBytes rest
  | _ => []
  end.

(** The bit of [data] at position [k] of the bit stream. *)
Definition bitAt (data : list Z) (k : Z) : bool :=
  match data !! Z.to_nat (k / 8) with
  | Some b => Z.testbit b (7 - k mod 8)
  | None => false
  end.

(** The module [drawCodewords] writes at position [i] of the scan. *)
Definition writtenAt (data : list Z) (i : Z) : Module :=
  if i <? Z.of_nat (length data) * 8
  then newFilled CodewordModule (bitAt data i)
  else newRemainder.

(** The bit stream of [data] as [drawCodewords] lays it out, cut off after
    the last byte. *)
Definition streamBit (data : list Z) (k : Z) : list bool :=
  if k <? Z.of_nat (length data) * 8 then [bitAt data k] else [].

(** Two objects of the same class that both have, or both lack, a colour. *)
Definition osim (o1 o2 : Module) : Prop :=
  cls o1 = cls o2 /\ (is_Some (color o1) <-> is_Some (color o2)).

Definition hsim (h1 h2 : Heap) : Prop :=
  next h1 = next h2 /\ forall r, option_Forall2 osim (deref h1 r) (deref h2 r).

(** The same grid of references, for the levels [e1] and [e2], over heaps
    that agree on every class. *)
Definition ssim (e1 e2 : ErrorCorrectionLevel) (s1 s2 : State) : Prop :=
  version (fst s1) = version (fst s2)
  /\ size (fst s1) = size (fst s2)
  /\ modules (fst s1) = modules (fst s2)
  /\ hsim (snd s1) (snd s2)
  /\ errorCorrectionLevel (fst s1) = e1
  /\ errorCorrectionLevel (fst s2) = e2.

Definition rsim {A : Type} (R : A -> A -> Prop) (r1 r2 : Result A) : Prop :=
  match r1, r2 with
  | Ok a, Ok b => R a b
  | Throw s, Throw t => s = t
  | Unmodelled, Unmodelled => True
  | _, _ => False
  end.

(** ** The steps before data placement

    A fresh grid, then the function patterns in the order of section 2 of
    the specification. *)
Definition drawFunctionPatterns (v : Z) (ecl : ErrorCorrectionLevel) (mask : Z)
  : Result State :=
  do st <- QrCode.new v ecl emptyHeap;
  do st <- QrCode.drawTimingPatterns st;
  do st <- QrCode.drawFinderPatterns st;
  do st <- QrCode.drawAlignmentPatterns st;
  do st <- QrCode.drawFormatBits mask st;
  QrCode.drawVersionInformation st.

(** The number of cells that hold an [UnfilledModule]. *)
Definition isUnfilledRef (h : Heap) (r : loc) : bool :=
  match deref h r with
  | Some o => instanceofUnfilled (cls o)
  | None => false
  end.

Definition numUnfilled (st : State) : Z :=
  Z.of_nat (length (filter (fun r => isUnfilledRef (snd st) r = true)
                           (concat (modules (fst st))))).

Definition wfRefb (h : Heap) (r : loc) : bool :=
  (r <? next h)%positive
  && match deref h r with
     | Some o => implb (instanceofFilled (cls o))
                       (match color o with Some _ => true | None => false end)
     | None => false
     end.

Definition wfb (st : State) : bool :=
  (size (fst st) =? version (fst st) * 4 + 17)
  && (length (modules (fst st)) =? Z.to_nat (size (fst st)))%nat
  && forallb (fun col => (length col =? Z.to_nat (size (fst st)))%nat
                         && forallb (wfRefb (snd st)) col) (modules (fst st)).

Definition inGridb (qr : QrCode) (xy : Z * Z) : bool :=
  (0 <=? fst xy) && (fst xy <? size qr) && (0 <=? snd xy) && (snd xy <? size qr).

Definition cellKey (xy : Z * Z) : positive := Z.to_pos (fst xy * 65536 + snd xy + 1).

Fixpoint distinctKeys (l : list positive) (seen : Pmap unit) : bool :=
  match l with
  | [] => true
  | k :: l' =>
      match seen !! k with
      | Some _ => false
      | None => distinctKeys l' (<[k := tt]> seen)
      end
  end.

Definition gridChecks (v : Z) (st : State) (sc : list (Z * Z)) (n : Z) : bool :=
  wfb st
  && (version (fst st) =? v) && (size (fst st) =? v * 4 + 17)
  && (Z.of_nat (length sc) =? n) && (numUnfilled st =? n)
  && distinctKeys (map cellKey sc) ∅
  && forallb (inGridb (fst st)) sc.

Definition pipelineChecks (prep : Z -> Result State)
    (scan : State -> Result (list (Z * Z))) (raw : Z -> Result Z) (lo hi : Z) : bool :=
  forallb (fun v =>
             match prep v with
             | Ok st =>
                 match scan st, raw v with
                 | Ok sc, Ok n => gridChecks v st sc n
                 | _, _ => false
                 end
             | _ => false
             end) (range lo hi).

Definition levels : list ErrorCorrectionLevel := [LOW; MEDIUM; QUARTILE; HIGH].

Definition fieldChecks (field spec : ErrorCorrectionLevel -> Z -> Z) (lo hi : Z) : bool :=
  forallb (fun e =>
             forallb (fun m => (Js.ushr (field e m) 15 =? 0) && (field e m =? spec e m)
                               && (0 <=? spec e m) && (spec e m <? 32768))
                     (range lo hi)) levels.

(** What the checks establish for one version. *)
Record prepared (v : Z) (st : State) (sc : list (Z * Z)) (n : Z) : Prop := {
  prep_wf : wf st;
  prep_version : version (fst st) = v;
  prep_size : size (fst st) = v * 4 + 17;
  prep_length : Z.of_nat (length sc) = n;
  prep_unfilled : numUnfilled st = n;
  prep_nodup : NoDup sc;
  prep_inGrid : Forall (fun xy => inGrid (fst st) (fst xy) (snd xy)) sc
}.

(** The format field as the specification words it, on plain integers. *)
Definition formatFieldSpec (ecl : ErrorCorrectionLevel) (mask : Z) : Z :=
  if mask =? -1 then 0
  else
    let data := Z.lor (Z.shiftl (formatBits ecl) 3) mask in
    let rem :=
      fold_left (fun rem _ =>
                   Z.lxor (Z.shiftl rem 1) (Z.land (Z.shiftr rem 9) 1 * 0x537))
                (range 0 10) data in
    Z.lxor (Z.lor (Z.shiftl data 10) rem) 0x5412.

(** A reference to a fresh [UnfilledModule], allocated at or after [lo]. *)
Definition unfilledRef (lo : loc) (h : Heap) (r : loc) : Prop :=
  (lo <= r < next h)%positive /\ deref h r = Some newUnfilled.

Definition boundChecks (f : Z -> Result Z) (bound lo hi : Z) : bool :=
  forallb (fun v => match f v with
                    | Ok n => (0 <=? n) && (n <? bound)
                    | _ => false
                    end) (range lo hi).

(** The class of the module of a cell is a function module. *)
Definition isFunctionAt (st : State) (x y : Z) : bool :=
  match moduleAt st x y with
  | Some o => instanceofFunction (cls o)
  | None => false
  end.

(** The object [makeMask] leaves in the cell [(x, y)] of the mask. *)
Definition maskObject (mask : Z) (this : State) (x y : Z) : Module :=
  if isFunctionAt this x y then newUnfilled
  else match QrCode.maskInvert mask x y with
       | Ok b => newFilled FilledModule b
       | _ => newUnfilled
       end.

(** [hc] differs from [h] in colours only, and not at all for the objects
    allocated from [n0] on nor for function modules. *)
Definition colourOnly (n0 : loc) (h hc : Heap) : Prop :=
  forall r,
    match deref h r, deref hc r with
    | Some o, Some o' =>
        cls o' = cls o /\ isNew o' = isNew o
        /\ (is_Some (color o) -> is_Some (color o'))
        /\ ((n0 <= r)%positive \/ instanceofFunction (cls o) = true -> o' = o)
    | None, None => True
    | _, _ => False
    end.

(** The colour difference between two heaps, per object. *)
Definition colourDiff (h1 h2 : Heap) (r : loc) : bool :=
  match deref h1 r, deref h2 r with
  | Some o, Some o' =>
      match color o, color o' with
      | Some c, Some c' => xorb c c'
      | _, _ => false
      end
  | _, _ => false
  end.

Definition writeAll (ws : list (Z * Z * Module)) (st : State) : Result State :=
  forR (fun w st => putNew (fst (fst w)) (snd (fst w)) (snd w) st) ws st.

(** The writes of [drawFormatBits], in the order of the source. *)
Definition formatWrites (sz bits : Z) : list (Z * Z * Module) :=
  let fmt i := newFilled FormatInfoModule (getBit bits i) in
  map (fun i => (8, i, fmt i)) (range 0 6)
  ++ [(8, 7, fmt 6); (8, 8, fmt 7); (7, 8, fmt 8)]
  ++ map (fun i => (14 - i, 8, fmt i)) (range 9 15)
  ++ map (fun i => (sz - 1 - i, 8, fmt i)) (range 0 8)
  ++ map (fun i => (8, sz - 15 + i, fmt i)) (range 8 15)
  ++ [(8, sz - 8, newBlack)].

(** The loops of [drawFormatBits], for a given value of [bits]. *)
Definition formatLoops (sz bits : Z) (st : State) : Result State :=
  let fmt i := newFilled FormatInfoModule (getBit bits i) in
  do st <- forR (fun i st => putNew 8 i (fmt i) st) (range 0 6) st;
  do st <- putNew 8 7 (fmt 6) st;
  do st <- putNew 8 8 (fmt 7) st;
  do st <- putNew 7 8 (fmt 8) st;
  do st <- forR (fun i st => putNew (14 - i) 8 (fmt i) st) (range 9 15) st;
  do st <- forR (fun i st => putNew (sz - 1 - i) 8 (fmt i) st) (range 0 8) st;
  do st <- forR (fun i st => putNew 8 (sz - 15 + i) (fmt i) st) (range 8 15) st;
  putNew 8 (sz - 8) newBlack st.

(** The two cells that hold bit [i] of the format field. *)
Definition formatCells (sz i : Z) : list (Z * Z) :=
  [ if i <? 6 then (8, i) else if i <? 8 then (8, i + 1)
    else if i =? 8 then (7, 8) else (14 - i, 8);
    if i <? 8 then (sz - 1 - i, 8) else (8, sz - 15 + i) ].

Definition exampleData : list Z :=
  [32; 91; 11; 120; 209; 114; 220; 77; 67; 64; 236; 17; 236;
   17; 236; 17; 196; 35; 39; 119; 235; 215; 231; 226; 93; 23].

Definition exampleSymbol : Result State :=
  do st <- drawFunctionPatterns 1 LOW (-1);
  do scan <- QrCode.makeZigZagScan st;
  QrCode.drawCodewords exampleData scan st.

Definition stateOf (r : Result State) : State :=
  match r with
  | Ok st => st
  | _ => ({| version := 0; errorCorrectionLevel := LOW; size := 0; modules := [] |},
          emptyHeap)
  end.

Definition exampleState : State := stateOf exampleSymbol.

(** * Properties *)

Lemma lxor_bound (n a b : Z) :
  0 <= n -> 0 <= a < 2 ^ n -> 0 <= b < 2 ^ n -> 0 <= Z.lxor a b < 2 ^ n.
Proof.
  intros Hn Ha Hb.
  assert (H0 : 0 <= Z.lxor a b) by (rewrite Z.lxor_nonneg; split; intros; lia).
  split; [exact H0|].
  destruct (Z.eq_dec (Z.lxor a b) 0) as [E|E]; [rewrite E; lia|].
  assert (Hn0 : 0 < n).
  { destruct (Z.eq_dec n 0) as [->|]; [|lia].
    assert (a = 0) by (change (2 ^ 0) with 1 in Ha; lia).
    assert (b = 0) by (change (2 ^ 0) with 1 in Hb; lia).
    subst. now contradiction E. }
  apply Z.log2_lt_pow2; [lia|].
  pose proof (Z.log2_lxor a b ltac:(lia) ltac:(lia)) as Hl.
  assert (Z.log2 a < n).
  { destruct (Z.eq_dec a 0) as [->|]; [simpl; lia|]. apply Z.log2_lt_pow2; lia. }
  assert (Z.log2 b < n).
  { destruct (Z.eq_dec b 0) as [->|]; [simpl; lia|]. apply Z.log2_lt_pow2; lia. }
  lia.
Qed.

Module JsFacts.

Ltac pow2 :=
  change (2 ^ 32) with 4294967296 in *;
  change (2 ^ 31) with 2147483648 in *.

Lemma toUint32_mod (z : Z) : Js.toUint32 z = z mod 2 ^ 32.
Proof.
  unfold Js.toUint32. change 0xFFFFFFFF with (Z.ones 32).
  apply Z.land_ones. lia.
Qed.

Lemma toUint32_small (z : Z) : 0 <= z < 2 ^ 32 -> Js.toUint32 z = z.
Proof. intros H. rewrite toUint32_mod. apply Z.mod_small. exact H. Qed.

Lemma toInt32_small (z : Z) : 0 <= z < 2 ^ 31 -> Js.toInt32 z = z.
Proof.
  intros H. unfold Js.toInt32. rewrite toUint32_small by (pow2; lia).
  destruct (Z.ltb_spec z 0x80000000) as [_|Hge]; [reflexivity|].
  pow2. lia.
Qed.

Lemma xor_small (a b : Z) :
  0 <= a < 2 ^ 31 -> 0 <= b < 2 ^ 31 -> Js.xor a b = Z.lxor a b.
Proof.
  intros Ha Hb. unfold Js.xor.
  rewrite (toInt32_small a), (toInt32_small b) by lia.
  apply toInt32_small. apply lxor_bound; lia.
Qed.

Lemma ushr_small (a n : Z) :
  0 <= a < 2 ^ 32 -> 0 <= n < 32 -> Js.ushr a n = a / 2 ^ n.
Proof.
  intros Ha Hn. unfold Js.ushr. rewrite (toUint32_small a) by lia.
  rewrite Z.mod_small by lia. apply Z.shiftr_div_pow2. lia.
Qed.

Lemma shl_small (a n : Z) :
  0 <= a -> 0 <= n < 32 -> a * 2 ^ n < 2 ^ 31 -> Js.shl a n = a * 2 ^ n.
Proof.
  intros Ha Hn Hb. unfold Js.shl.
  assert (0 < 2 ^ n) by (apply Z.pow_pos_nonneg; lia).
  rewrite (toInt32_small a) by nia.
  rewrite Z.mod_small by lia. rewrite Z.shiftl_mul_pow2 by lia.
  apply toInt32_small. nia.
Qed.

Lemma and_ones (a k : Z) :
  0 <= a < 2 ^ 31 -> 0 <= k <= 30 -> Js.and a (Z.ones k) = a mod 2 ^ k.
Proof.
  intros Ha Hk. unfold Js.and.
  assert (Hp : 0 < 2 ^ k) by (apply Z.pow_pos_nonneg; lia).
  assert (Hk31 : 2 ^ k < 2 ^ 31) by (apply Z.pow_lt_mono_r; lia).
  assert (Ho : 0 <= Z.ones k < 2 ^ 31) by (rewrite Z.ones_equiv; lia).
  rewrite (toInt32_small a), (toInt32_small (Z.ones k)) by lia.
  rewrite Z.land_ones by lia.
  apply toInt32_small.
  pose proof (Z.mod_pos_bound a (2 ^ k) Hp). lia.
Qed.

Lemma getBit_testbit (x i : Z) :
  0 <= x < 2 ^ 31 -> 0 <= i < 32 -> getBit x i = Z.testbit x i.
Proof.
  intros Hx Hi. unfold getBit. rewrite ushr_small by lia.
  assert (Hp : 0 < 2 ^ i) by (apply Z.pow_pos_nonneg; lia).
  assert (Hd : 0 <= x / 2 ^ i < 2 ^ 31).
  { split; [apply Z.div_pos; lia|].
    apply Z.div_lt_upper_bound; [lia|]. nia. }
  change 1 with (Z.ones 1) at 1. rewrite and_ones by lia.
  change (2 ^ 1) with 2.
  pose proof (Z.testbit_spec' x i ltac:(lia)) as Hs.
  rewrite <- Hs. destruct (Z.testbit x i); reflexivity.
Qed.

End JsFacts.

Lemma elem_of_range (lo hi x : Z) : x ∈ range lo hi <-> lo <= x < hi.
Proof. unfold range. rewrite elem_of_seqZ. lia. Qed.

Lemma forallb_range (P : Z -> bool) (lo hi : Z) :
  forallb P (range lo hi) = true -> forall x, lo <= x < hi -> P x = true.
Proof.
  intros H x Hx. rewrite forallb_forall in H. apply H.
  apply list_elem_of_In, elem_of_range. exact Hx.
Qed.

Lemma forallb2_range (P : Z -> Z -> bool) (a b c d : Z) :
  forallb (fun x => forallb (P x) (range c d)) (range a b) = true ->
  forall x y, a <= x < b -> c <= y < d -> P x y = true.
Proof.
  intros H x y Hx Hy.
  pose proof (forallb_range _ a b H x Hx) as Hrow. cbv beta in Hrow.
  exact (forallb_range _ c d Hrow y Hy).
Qed.

Lemma agreeChecks_sound (f g : Z -> Z) (lo hi : Z) :
  agreeChecks f g lo hi = true ->
  forall z, lo <= z < hi -> f z = g z /\ 0 <= g z < 256.
Proof.
  unfold agreeChecks. intros H z Hz.
  pose proof (forallb_range _ lo hi H z Hz) as Hc. cbv beta in Hc.
  apply andb_prop in Hc as [Hc H3]. apply andb_prop in Hc as [H1 H2].
  apply Z.eqb_eq in H1. apply Z.leb_le in H2. apply Z.ltb_lt in H3. auto.
Qed.

Lemma symChecks_sound (f : Z -> Z -> Z) (lo hi : Z) :
  symChecks f lo hi = true ->
  forall x y, lo <= x < hi -> lo <= y < hi -> f x y = f y x.
Proof.
  unfold symChecks. intros H x y Hx Hy.
  pose proof (forallb2_range (fun x y => f x y =? f y x) lo hi lo hi H x y Hx Hy) as Hc.
  cbv beta in Hc. apply Z.eqb_eq in Hc. exact Hc.
Qed.

Lemma unitChecks_sound (f : Z -> Z -> Z) (lo hi : Z) :
  unitChecks f lo hi = true ->
  forall x, lo <= x < hi -> f x 1 = x /\ f x 0 = 0.
Proof.
  unfold unitChecks. intros H x Hx.
  pose proof (forallb_range _ lo hi H x Hx) as Hc. cbv beta in Hc.
  apply andb_prop in Hc as [H1 H0].
  apply Z.eqb_eq in H1, H0. auto.
Qed.

Lemma gfDouble_checked :
  agreeChecks (fun z => Js.xor (Js.shl z 1) (Js.ushr z 7 * 0x11D)) gfDouble 0 256 = true.
Proof. vm_compute. reflexivity. Qed.

Lemma gfMul_sym_checked : symChecks gfMul 0 256 = true.
Proof. vm_compute. reflexivity. Qed.

Lemma gfMul_unit_checked : unitChecks gfMul 0 256 = true.
Proof. vm_compute. reflexivity. Qed.

Lemma gfDouble_js (z : Z) :
  isByte z ->
  Js.xor (Js.shl z 1) (Js.ushr z 7 * 0x11D) = gfDouble z /\ isByte (gfDouble z).
Proof.
  intros Hz.
  destruct (agreeChecks_sound _ _ 0 256 gfDouble_checked z
              ltac:(unfold isByte in Hz; lia)) as [H1 H2].
  cbv beta in H1. unfold isByte. split; [exact H1|lia].
Qed.

Lemma and_ushr_bit (x i : Z) :
  0 <= x < 2 ^ 31 -> 0 <= i < 32 ->
  Js.and (Js.ushr x i) 1 = Z.b2z (Z.testbit x i).
Proof.
  intros Hx Hi. rewrite JsFacts.ushr_small by (JsFacts.pow2; lia).
  assert (Hp : 0 < 2 ^ i) by (apply Z.pow_pos_nonneg; lia).
  assert (Hd : 0 <= x / 2 ^ i < 2 ^ 31).
  { split; [apply Z.div_pos; lia|].
    apply Z.div_lt_upper_bound; [lia|]. nia. }
  change 1 with (Z.ones 1) at 1. rewrite JsFacts.and_ones by lia.
  change (2 ^ 1) with 2.
  symmetry. apply Z.testbit_spec'. lia.
Qed.

Lemma byte_lt31 (z : Z) : isByte z -> 0 <= z < 2 ^ 31.
Proof. unfold isByte. JsFacts.pow2. lia. Qed.

Lemma xor_byte (a b : Z) :
  isByte a -> isByte b -> Js.xor a b = Z.lxor a b /\ isByte (Z.lxor a b).
Proof.
  intros Ha Hb. split.
  - apply JsFacts.xor_small; apply byte_lt31; assumption.
  - pose proof (lxor_bound 8 a b ltac:(lia)) as H. change (2 ^ 8) with 256 in H.
    unfold isByte in *. lia.
Qed.

Lemma gfStep_js (x y z i : Z) :
  isByte x -> isByte y -> isByte z -> 0 <= i < 8 ->
  (let z := Js.xor (Js.shl z 1) (Js.ushr z 7 * 0x11D) in
   Js.xor z (Js.and (Js.ushr y i) 1 * x)) = gfStep x y z i
  /\ isByte (gfStep x y z i).
Proof.
  intros Hx Hy Hz Hi. cbv zeta.
  destruct (gfDouble_js z Hz) as [-> Hd].
  rewrite and_ushr_bit by (try apply byte_lt31; try assumption; lia).
  unfold gfStep.
  assert (Hb : isByte (if Z.testbit y i then x else 0)).
  { destruct (Z.testbit y i); [assumption|unfold isByte; lia]. }
  replace (Z.b2z (Z.testbit y i) * x) with (if Z.testbit y i then x else 0)
    by (destruct (Z.testbit y i); cbn [Z.b2z]; lia).
  apply xor_byte; assumption.
Qed.

Lemma gfFold_js (x y : Z) (l : list Z) (z : Z) :
  isByte x -> isByte y -> isByte z -> Forall (fun i => 0 <= i < 8) l ->
  fold_left (fun z i =>
               Js.xor (Js.xor (Js.shl z 1) (Js.ushr z 7 * 0x11D))
                      (Js.and (Js.ushr y i) 1 * x)) l z
  = fold_left (gfStep x y) l z
  /\ isByte (fold_left (gfStep x y) l z).
Proof.
  intros Hx Hy Hz Hl. revert z Hz.
  induction Hl as [|i l Hi Hl IH]; intros z Hz; cbn [fold_left].
  - split; [reflexivity|assumption].
  - destruct (gfStep_js x y z i Hx Hy Hz Hi) as [E Hb].
    cbv zeta in E. rewrite E. apply IH. exact Hb.
Qed.

Lemma ushr8_byte (z : Z) : isByte z -> Js.ushr z 8 = 0.
Proof.
  intros Hz. rewrite JsFacts.ushr_small by (unfold isByte in Hz; JsFacts.pow2; lia).
  apply Z.div_small. unfold isByte in Hz. change (2 ^ 8) with 256. lia.
Qed.

Lemma rangeDown_7_0 : Forall (fun i => 0 <= i < 8) (rangeDown 7 0).
Proof. repeat constructor; lia. Qed.

Lemma multiply_gfMul (x y : Z) :
  isByte x -> isByte y -> ReedSolomonGenerator.multiply x y = Ok (gfMul x y) /\ isByte (gfMul x y).
Proof.
  intros Hx Hy. unfold ReedSolomonGenerator.multiply, gfMul. cbv zeta.
  rewrite (ushr8_byte x Hx), (ushr8_byte y Hy). cbn [Z.eqb negb orb].
  destruct (gfFold_js x y (rangeDown 7 0) 0 Hx Hy ltac:(unfold isByte; lia) rangeDown_7_0)
    as [E Hb].
  rewrite E.
  rewrite (ushr8_byte _ Hb). cbn [Z.eqb negb]. split; [reflexivity|exact Hb].
Qed.

Lemma multiply_byte (x y : Z) :
  isByte x -> isByte y -> exists z, ReedSolomonGenerator.multiply x y = Ok z /\ isByte z.
Proof.
  intros Hx Hy. destruct (multiply_gfMul x y Hx Hy) as [E Hb]. eauto.
Qed.

(** Claim C8.  For all bytes [x] and [y]: [multiply x 1] is [x],
    [multiply x 0] is 0, [multiply x y] equals [multiply y x], and the
    product is a byte again, so neither exception of [multiply] is
    raised. *)
Theorem multiply_field_laws (x y : Z) :
  0 <= x <= 255 -> 0 <= y <= 255 ->
  ReedSolomonGenerator.multiply x 1 = Ok x
  /\ ReedSolomonGenerator.multiply x 0 = Ok 0
  /\ ReedSolomonGenerator.multiply x y = ReedSolomonGenerator.multiply y x
  /\ exists z, ReedSolomonGenerator.multiply x y = Ok z /\ 0 <= z <= 255.
Proof.
  intros Hx Hy.
  destruct (unitChecks_sound gfMul 0 256 gfMul_unit_checked x ltac:(lia)) as [H1 H0].
  pose proof (symChecks_sound gfMul 0 256 gfMul_sym_checked x y
                ltac:(lia) ltac:(lia)) as Hs.
  destruct (multiply_gfMul x 1 Hx ltac:(unfold isByte; lia)) as [E1 _].
  destruct (multiply_gfMul x 0 Hx ltac:(unfold isByte; lia)) as [E0 _].
  destruct (multiply_gfMul x y Hx Hy) as [Exy Hb].
  destruct (multiply_gfMul y x Hy Hx) as [Eyx _].
  rewrite E1, E0, Exy, Eyx, H1, H0, Hs.
  split; [reflexivity|]. split; [reflexivity|]. split; [reflexivity|].
  rewrite <- Hs.
  exists (gfMul x y). split; [reflexivity|exact Hb].
Qed.

Lemma multiply_field_laws_witness :
  ReedSolomonGenerator.multiply 3 1 = Ok 3
  /\ ReedSolomonGenerator.multiply 3 0 = Ok 0
  /\ ReedSolomonGenerator.multiply 3 7 = ReedSolomonGenerator.multiply 7 3
  /\ exists z, ReedSolomonGenerator.multiply 3 7 = Ok z /\ 0 <= z <= 255.
Proof. apply (multiply_field_laws 3 7); lia. Defined.

(** Claim C5.  [getNumRawDataModules v] is the closed form
    [(16 v + 128) v + 64], less [(25 a - 10) a - 55] with [a = v / 7 + 2]
    when [v >= 2], less 36 more exactly when [v >= 7], for every version in
    [1, 40] (outside it the call throws); and [getNumRawDataModules 1] is
    208. *)
Theorem getNumRawDataModules_closed_form :
  (forall v : Z,
      getNumRawDataModules v =
      if (1 <=? v) && (v <=? 40) then Ok (rawDataModulesSpec v)
      else Throw "Version number out of range")
  /\ getNumRawDataModules 1 = Ok 208.
Proof.
  split; [|reflexivity].
  intros v. unfold getNumRawDataModules, rawDataModulesSpec, MIN_VERSION, MAX_VERSION,
    Js.floorDiv.
  destruct (Z.ltb_spec v 1), (Z.gtb_spec v 40), (Z.leb_spec 1 v), (Z.leb_spec v 40);
    try lia; simpl; try reflexivity.
  destruct (Z.geb_spec v 2), (Z.leb_spec 2 v); try lia;
  destruct (Z.geb_spec v 7), (Z.leb_spec 7 v); try lia; f_equal; lia.
Qed.

Lemma map_fmap {A B : Type} (f : A -> B) (l : list A) : map f l = f <$> l.
Proof. induction l as [|a l IH]; simpl; [reflexivity|]. now rewrite IH. Qed.

Lemma range_length (lo hi : Z) : length (range lo hi) = Z.to_nat (hi - lo).
Proof. unfold range. apply length_seqZ. Qed.

(** A loop whose body keeps an invariant and never fails returns a state
    that satisfies the invariant. *)
Lemma forR_ok_inv {I S : Type} (P : S -> Prop) (body : I -> S -> Result S)
    (l : list I) (s : S) :
  P s ->
  (forall i s, i ∈ l -> P s -> exists s', body i s = Ok s' /\ P s') ->
  exists s', forR body l s = Ok s' /\ P s'.
Proof.
  revert s. induction l as [|i l IH]; intros s Hs Hbody; cbn [forR].
  - eauto.
  - destruct (Hbody i s ltac:(left) Hs) as (s1 & E & Hs1).
    rewrite E. cbn [bindR]. apply IH; [exact Hs1|].
    intros j t Hj. apply Hbody. now right.
Qed.

Lemma js_xor_byte (a b : Z) : isByte a -> isByte b -> isByte (Js.xor a b).
Proof.
  intros Ha Hb. rewrite (proj1 (xor_byte a b Ha Hb)). apply xor_byte; assumption.
Qed.

Section Generator.

Variable n : nat.

(** The arrays of the generator: [n] bytes. *)
Definition byteArray (l : list Z) : Prop := length l = n /\ Forall isByte l.

Definition zeroArray (l : list Z) : Prop := length l = n /\ Forall (fun b => b = 0) l.

Lemma zeroArray_byteArray (l : list Z) : zeroArray l -> byteArray l.
Proof.
  intros [Hl Hz]. split; [exact Hl|].
  eapply Forall_impl; [exact Hz|]. intros b ->. unfold isByte. lia.
Qed.

Lemma ctorInner_ok (root j : Z) (coefs : list Z) :
  isByte root -> 0 <= j < Z.of_nat n -> byteArray coefs ->
  exists coefs', ReedSolomonGenerator.ctorInner root j coefs = Ok coefs' /\ byteArray coefs'.
Proof.
  intros Hr Hj [Hl Hb]. unfold ReedSolomonGenerator.ctorInner.
  destruct (lookup_lt_is_Some_2 coefs (Z.to_nat j) ltac:(lia)) as [cj Ej].
  rewrite Ej.
  assert (Hcj : isByte cj) by (eapply Forall_lookup_1; eassumption).
  destruct (multiply_byte cj root Hcj Hr) as (m & Em & Hm).
  rewrite Em. cbn [bindR]. rewrite length_insert.
  assert (Hb1 : Forall isByte (<[Z.to_nat j:=m]> coefs)).
  { apply Forall_insert; assumption. }
  destruct (Z.ltb_spec (j + 1) (Z.of_nat (length coefs))) as [Hlt|Hge].
  - destruct (lookup_lt_is_Some_2 (<[Z.to_nat j:=m]> coefs) (Z.to_nat (j + 1))
                ltac:(rewrite length_insert; lia)) as [c1 E1].
    rewrite E1.
    assert (Hc1 : isByte c1) by (eapply Forall_lookup_1; eassumption).
    eexists. split; [reflexivity|]. split.
    + rewrite !length_insert. exact Hl.
    + apply Forall_insert; [exact Hb1|]. apply js_xor_byte; assumption.
  - eexists. split; [reflexivity|]. split; [rewrite length_insert; exact Hl|exact Hb1].
Qed.

Lemma ctorOuter_ok (i : Z) (s : list Z * Z) :
  byteArray (fst s) -> isByte (snd s) ->
  exists s', ReedSolomonGenerator.ctorOuter i s = Ok s' /\ byteArray (fst s') /\ isByte (snd s').
Proof.
  destruct s as [coefs root]. cbn [fst snd]. intros Hc Hr. unfold ReedSolomonGenerator.ctorOuter.
  destruct (forR_ok_inv byteArray (ReedSolomonGenerator.ctorInner root)
              (range 0 (Z.of_nat (length coefs))) coefs Hc) as (coefs' & E & Hc').
  { intros j c Hj Hbc. apply ctorInner_ok; [exact Hr| |exact Hbc].
    apply elem_of_range in Hj. destruct Hc as [Hl _]. lia. }
  rewrite E. cbn [bindR].
  destruct (multiply_byte root 2 Hr ltac:(unfold isByte; lia)) as (r' & Er & Hr').
  rewrite Er. cbn [bindR]. eexists. split; [reflexivity|]. cbn [fst snd]. auto.
Qed.

Lemma remInner_ok (coefs : list Z) (factor i : Z) (result : list Z) :
  byteArray coefs -> isByte factor -> 0 <= i < Z.of_nat n -> byteArray result ->
  exists result', ReedSolomonGenerator.remInner coefs factor i result = Ok result' /\ byteArray result'.
Proof.
  intros [Hlc Hbc] Hf Hi [Hlr Hbr]. unfold ReedSolomonGenerator.remInner.
  destruct (lookup_lt_is_Some_2 coefs (Z.to_nat i) ltac:(lia)) as [c Ec].
  destruct (lookup_lt_is_Some_2 result (Z.to_nat i) ltac:(lia)) as [r Er].
  rewrite Ec, Er.
  assert (Hc : isByte c) by exact (Forall_lookup_1 _ _ _ _ Hbc Ec).
  assert (Hr : isByte r) by exact (Forall_lookup_1 _ _ _ _ Hbr Er).
  destruct (multiply_byte c factor Hc Hf) as (m & Em & Hm).
  rewrite Em. cbn [bindR]. eexists. split; [reflexivity|]. split.
  - rewrite length_insert. exact Hlr.
  - apply Forall_insert; [exact Hbr|]. apply js_xor_byte; assumption.
Qed.

Lemma remInner_zero (coefs : list Z) (i : Z) (result : list Z) :
  byteArray coefs -> 0 <= i < Z.of_nat n -> zeroArray result ->
  exists result', ReedSolomonGenerator.remInner coefs 0 i result = Ok result' /\ zeroArray result'.
Proof.
  intros [Hlc Hbc] Hi [Hlr Hzr]. unfold ReedSolomonGenerator.remInner.
  destruct (lookup_lt_is_Some_2 coefs (Z.to_nat i) ltac:(lia)) as [c Ec].
  destruct (lookup_lt_is_Some_2 result (Z.to_nat i) ltac:(lia)) as [r Er].
  rewrite Ec, Er.
  assert (Hc : isByte c) by exact (Forall_lookup_1 _ _ _ _ Hbc Ec).
  assert (Hr : r = 0) by exact (Forall_lookup_1 _ _ _ _ Hzr Er).
  subst r.
  destruct (multiply_field_laws c 0 Hc ltac:(lia)) as (_ & E0 & _).
  rewrite E0. cbn [bindR]. eexists. split; [reflexivity|]. split.
  - rewrite length_insert. exact Hlr.
  - apply Forall_insert; [exact Hzr|]. reflexivity.
Qed.

Lemma remOuter_ok (coefs : list Z) (b : Z) (result : list Z) :
  (0 < n)%nat -> byteArray coefs -> isByte b -> byteArray result ->
  exists result', ReedSolomonGenerator.remOuter coefs b result = Ok result' /\ byteArray result'.
Proof.
  intros Hn Hc Hb [Hlr Hbr]. unfold ReedSolomonGenerator.remOuter.
  destruct result as [|r0 rest]; [cbn in Hlr; lia|].
  apply Forall_cons in Hbr as [Hr0 Hrest].
  cbn [length] in Hlr.
  assert (Hf : isByte (Js.xor b r0)) by (apply js_xor_byte; assumption).
  apply forR_ok_inv.
  - split; [rewrite length_app; cbn [length]; lia|].
    apply Forall_app. split; [exact Hrest|]. repeat constructor; lia.
  - intros i r Hi Hr. apply remInner_ok; try assumption.
    apply elem_of_range in Hi. rewrite length_app in Hi. cbn [length] in Hi. lia.
Qed.

Lemma remOuter_zero (coefs : list Z) (result : list Z) :
  (0 < n)%nat -> byteArray coefs -> zeroArray result ->
  exists result', ReedSolomonGenerator.remOuter coefs 0 result = Ok result' /\ zeroArray result'.
Proof.
  intros Hn Hc [Hlr Hzr]. unfold ReedSolomonGenerator.remOuter.
  destruct result as [|r0 rest]; [cbn in Hlr; lia|].
  apply Forall_cons in Hzr as [Hr0 Hrest]. subst r0.
  cbn [length] in Hlr. change (Js.xor 0 0) with 0.
  apply forR_ok_inv.
  - split; [rewrite length_app; cbn [length]; lia|].
    apply Forall_app. split; [exact Hrest|]. repeat constructor.
  - intros i r Hi Hr. apply remInner_zero; try assumption.
    apply elem_of_range in Hi. rewrite length_app in Hi. cbn [length] in Hi. lia.
Qed.

End Generator.

Lemma generator_new_ok (degree : Z) :
  1 <= degree <= 255 ->
  exists g, ReedSolomonGenerator.new degree = Ok g /\ byteArray (Z.to_nat degree) (ReedSolomonGenerator.coefficients g).
Proof.
  intros Hd. unfold ReedSolomonGenerator.new.
  destruct (Z.ltb_spec degree 1); [lia|]. destruct (Z.gtb_spec degree 255); [lia|].
  cbn [orb].
  destruct (forR_ok_inv
              (fun s => byteArray (Z.to_nat degree) (fst s) /\ isByte (snd s))
              ReedSolomonGenerator.ctorOuter (range 0 degree)
              (map (fun _ => 0) (range 0 (degree - 1)) ++ [1], 1))
    as (s & E & Hs & _).
  - cbn [fst snd]. split; [|unfold isByte; lia]. split.
    + rewrite length_app, length_map, range_length. cbn [length]. lia.
    + apply Forall_app. split; [|repeat constructor; lia].
      rewrite map_fmap. apply Forall_fmap, Forall_forall. intros x _.
      cbv beta. unfold isByte, compose. lia.
  - intros i s _ [Hc Hr]. destruct (ctorOuter_ok _ i s Hc Hr) as (s' & E & H1 & H2).
    eauto.
  - rewrite E. cbn [bindR]. eexists. split; [reflexivity|]. exact Hs.
Qed.

(** Claim C9.  For every degree in [1, 255] the generator is built, and
    for every sequence of data bytes [getRemainder] returns a sequence as
    long as the degree, which is all zero when the data are all zero. *)
Theorem getRemainder_length_zero (degree : Z) (data : list Z) :
  1 <= degree <= 255 ->
  Forall (fun b => 0 <= b <= 255) data ->
  exists g r,
    ReedSolomonGenerator.new degree = Ok g
    /\ ReedSolomonGenerator.getRemainder g data = Ok r
    /\ Z.of_nat (length r) = degree
    /\ (Forall (fun b => b = 0) data -> Forall (fun b => b = 0) r).
Proof.
  intros Hd Hdata.
  destruct (generator_new_ok degree Hd) as (g & Eg & Hg).
  set (n := Z.to_nat degree) in *.
  assert (Hn : (0 < n)%nat) by lia.
  destruct (forR_ok_inv (byteArray n) (ReedSolomonGenerator.remOuter (ReedSolomonGenerator.coefficients g)) data
              (map (fun _ => 0) (ReedSolomonGenerator.coefficients g))) as (r & Er & Hr).
  { destruct Hg as [Hl _]. split; [rewrite length_map; exact Hl|].
    rewrite map_fmap. apply Forall_fmap, Forall_forall. intros x _.
    unfold compose, isByte. lia. }
  { intros b res Hb Hres. apply remOuter_ok; try assumption.
    rewrite Forall_forall in Hdata. apply Hdata, Hb. }
  exists g, r. split; [exact Eg|]. split; [exact Er|]. split.
  - destruct Hr as [Hl _]. lia.
  - intros Hz.
    destruct (forR_ok_inv (zeroArray n) (ReedSolomonGenerator.remOuter (ReedSolomonGenerator.coefficients g)) data
                (map (fun _ => 0) (ReedSolomonGenerator.coefficients g))) as (r' & Er' & Hr').
    { destruct Hg as [Hl _]. split; [rewrite length_map; exact Hl|].
      rewrite map_fmap. apply Forall_fmap, Forall_forall. intros x _. reflexivity. }
    { intros b res Hb Hres. rewrite Forall_forall in Hz.
      rewrite (Hz b Hb). apply remOuter_zero; assumption. }
    unfold ReedSolomonGenerator.getRemainder in Er. rewrite Er in Er'. injection Er' as ->.
    apply Hr'.
Qed.

Lemma getRemainder_length_zero_witness :
  exists g r,
    ReedSolomonGenerator.new 7 = Ok g
    /\ ReedSolomonGenerator.getRemainder g [0; 0; 0] = Ok r
    /\ Z.of_nat (length r) = 7
    /\ (Forall (fun b => b = 0) [0; 0; 0] -> Forall (fun b => b = 0) r).
Proof.
  apply (getRemainder_length_zero 7 [0; 0; 0]); [lia|].
  repeat constructor; lia.
Defined.

Lemma colors_column (h : Heap) (column : list loc) (acc : list bool) :
  Forall (fun r => is_Some (deref h r)) column ->
  forR (fun r acc => do c <- QrCode.cellColor h r; Ok (acc ++ [c])) column acc
  = Ok (acc ++ map (isDark h) column).
Proof.
  intros Hv. revert acc. induction Hv as [|r column [o Er] Hv IH]; intros acc; cbn [forR map].
  - now rewrite app_nil_r.
  - unfold QrCode.cellColor at 1. unfold isDark at 1. rewrite Er. cbn [bindR].
    rewrite IH. now rewrite <- app_assoc.
Qed.

Lemma colors_columns (h : Heap) (ms : list (list loc)) (acc : list (list bool)) :
  Forall (Forall (fun r => is_Some (deref h r))) ms ->
  forR (fun column acc =>
          do col <- forR (fun r acc => do c <- QrCode.cellColor h r; Ok (acc ++ [c]))
                         column [];
          Ok (acc ++ [col])) ms acc
  = Ok (acc ++ map (map (isDark h)) ms).
Proof.
  intros Hv. revert acc. induction Hv as [|column ms Hc Hv IH]; intros acc; cbn [forR map].
  - now rewrite app_nil_r.
  - rewrite (colors_column h column [] Hc). cbn [bindR app].
    rewrite IH. now rewrite <- app_assoc.
Qed.

Lemma colors_spec (st : State) :
  validRefs st ->
  QrCode.colors st = Ok (map (map (isDark (snd st))) (modules (fst st))).
Proof.
  destruct st as [qr h]. unfold validRefs, QrCode.colors. cbn [fst snd]. intros Hv.
  now rewrite (colors_columns h (modules qr) [] Hv).
Qed.

Lemma countBlack_column (column : list bool) (black : Z) :
  fold_left (fun black (color : bool) => if color then black + 1 else black) column black
  = black + Z.of_nat (length (filter (fun c => c = true) column)).
Proof.
  revert black. induction column as [|c column IH]; intros black; cbn [fold_left].
  - cbn. lia.
  - rewrite IH. destruct c.
    + rewrite filter_cons_True by reflexivity. cbn [length]. lia.
    + rewrite filter_cons_False by discriminate. lia.
Qed.

Lemma countBlack_from (cs : list (list bool)) (black : Z) :
  fold_left (fun black column =>
               fold_left (fun black (color : bool) => if color then black + 1 else black)
                         column black) cs black
  = black + Z.of_nat (length (filter (fun c => c = true) (concat cs))).
Proof.
  revert black. induction cs as [|column cs IH]; intros black; cbn [fold_left concat].
  - cbn. lia.
  - rewrite IH, countBlack_column, filter_app, length_app. lia.
Qed.

Lemma filter_map_length {A B : Type} (f : A -> B) (P : B -> Prop)
    `{forall b, Decision (P b)} (l : list A) :
  length (filter P (map f l)) = length (filter (fun a => P (f a)) l).
Proof.
  induction l as [|a l IH]; [reflexivity|]. cbn [map].
  destruct (decide (P (f a))) as [Hp|Hp].
  - rewrite !filter_cons_True by assumption. cbn [length]. now rewrite IH.
  - rewrite !filter_cons_False by assumption. exact IH.
Qed.

Lemma concat_map_map {A B : Type} (f : A -> B) (ls : list (list A)) :
  concat (map (map f) ls) = map f (concat ls).
Proof.
  induction ls as [|l ls IH]; [reflexivity|]. cbn [map concat].
  now rewrite IH, map_app.
Qed.

Lemma countBlack_numDark (st : State) :
  QrCode.countBlack (map (map (isDark (snd st))) (modules (fst st))) = numDark st.
Proof.
  unfold QrCode.countBlack, numDark. rewrite countBlack_from, concat_map_map.
  rewrite filter_map_length. lia.
Qed.

(** The loop of rule 4 stops at the least [k]. *)
Lemma rule4Loop_least (black total : Z) (fuel : nat) (k : Z) :
  0 < total -> 0 <= k ->
  Z.abs (black * 20 - total * 10) <= (k + Z.of_nat fuel + 1) * total ->
  (forall j, 0 <= j < k -> ~ Z.abs (black * 20 - total * 10) <= (j + 1) * total) ->
  exists k',
    QrCode.rule4Loop fuel black total k = Ok k'
    /\ 0 <= k'
    /\ Z.abs (black * 20 - total * 10) <= (k' + 1) * total
    /\ (forall j, 0 <= j < k' -> ~ Z.abs (black * 20 - total * 10) <= (j + 1) * total).
Proof.
  intros Ht. revert k.
  induction fuel as [|fuel IH]; intros k Hk Hfuel Hmin; cbn [QrCode.rule4Loop].
  - destruct (Z.gtb_spec (Z.abs (black * 20 - total * 10)) ((k + 1) * total)) as [Hgt|Hle].
    + exfalso. nia.
    + exists k. repeat split; [lia|lia|exact Hmin].
  - destruct (Z.gtb_spec (Z.abs (black * 20 - total * 10)) ((k + 1) * total)) as [Hgt|Hle].
    + apply IH; [lia|nia|].
      intros j Hj. destruct (Z.eq_dec j k) as [->|Hne]; [lia|apply Hmin; lia].
    + exists k. repeat split; [lia|lia|exact Hmin].
Qed.

(** Claim C10.  Rule 4 of [computePenalties]: with [black] the number of
    dark cells and [total] the square of the side, the points added are
    [10 * k] for the least [k >= 0] such that
    [|black * 20 - total * 10| <= (k + 1) * total]. *)
Theorem computePenalties_rule4_least (st : State) :
  validRefs st -> size (fst st) <> 0 ->
  let black := numDark st in
  let total := size (fst st) * size (fst st) in
  exists k,
    QrCode.computePenalties_rule4 st = Ok (black, 10 * k)
    /\ 0 <= k
    /\ Z.abs (black * 20 - total * 10) <= (k + 1) * total
    /\ (forall j, 0 <= j < k -> ~ Z.abs (black * 20 - total * 10) <= (j + 1) * total).
Proof.
  intros Hv Hs black total. unfold QrCode.computePenalties_rule4.
  rewrite (colors_spec st Hv). cbn [bindR]. rewrite countBlack_numDark.
  fold black. fold total.
  assert (Ht : 0 < total) by (unfold total; nia).
  destruct (rule4Loop_least black total
              (Z.to_nat (Z.abs (black * 20 - total * 10))) 0 Ht ltac:(lia))
    as (k & Ek & Hk0 & Hk1 & Hk2).
  - rewrite Z2Nat.id by lia. nia.
  - intros j Hj. lia.
  - rewrite Ek. cbn [bindR]. exists k. unfold PENALTY_N4.
    split; [do 2 f_equal; lia|]. auto.
Qed.

Lemma extends_refl (st : State) : extends st st.
Proof. unfold extends. repeat split; try reflexivity. Qed.

Lemma extends_trans (a b c : State) : extends a b -> extends b c -> extends a c.
Proof.
  unfold extends. intros (A1 & A2 & A3 & A4 & A5) (B1 & B2 & B3 & B4 & B5).
  repeat split; try congruence; try lia.
  intros r Hr. rewrite B5 by lia. apply A5, Hr.
Qed.

Lemma getModule_in (qr : QrCode) (h : Heap) (x y : Z) :
  wf (qr, h) -> inGrid qr x y ->
  exists r, getModule qr x y = Ok (Some r) /\ wfRef h r.
Proof.
  intros (Hsv & Hl & Hc) [Hx Hy]. cbn [fst snd] in *. unfold getModule.
  destruct (Z.ltb_spec x 0); [lia|].
  destruct (lookup_lt_is_Some_2 (modules qr) (Z.to_nat x) ltac:(lia)) as [col Ec].
  rewrite Ec.
  destruct (Forall_lookup_1 _ _ _ _ Hc Ec) as [Hlc Hrc].
  destruct (Z.ltb_spec y 0); [lia|].
  destruct (lookup_lt_is_Some_2 col (Z.to_nat y) ltac:(lia)) as [r Er].
  rewrite Er. exists r. split; [reflexivity|].
  exact (Forall_lookup_1 _ _ _ _ Hrc Er).
Qed.

Lemma moduleAt_in (st : State) (x y : Z) :
  wf st -> inGrid (fst st) x y -> exists o, moduleAt st x y = Some o /\ wfObj o.
Proof.
  destruct st as [qr h]. intros Hwf Hin. cbn [fst] in Hin.
  destruct (getModule_in qr h x y Hwf Hin) as (r & Er & _ & o & Eo & Ho).
  exists o. unfold moduleAt. cbn [fst snd]. rewrite Er. auto.
Qed.

Lemma wfRef_alloc (h : Heap) (o : Module) (r : loc) :
  wfRef h r -> wfRef (snd (alloc o h)) r.
Proof.
  intros [Hr (o' & Eo & Ho)]. unfold alloc, wfRef, deref. cbn [snd next objs].
  split; [lia|]. exists o'. split; [|exact Ho].
  rewrite lookup_insert_ne by lia. exact Eo.
Qed.

Lemma wfRef_alloc_new (h : Heap) (o : Module) :
  wfObj o -> wfRef (snd (alloc o h)) (next h).
Proof.
  intros Ho. unfold alloc, wfRef, deref. cbn [snd next objs].
  split; [lia|]. exists o. split; [|exact Ho]. apply lookup_insert_eq.
Qed.

Lemma deref_alloc_old (h : Heap) (o : Module) (r : loc) :
  (r < next h)%positive -> deref (snd (alloc o h)) r = deref h r.
Proof.
  intros Hr. unfold alloc, deref. cbn [snd objs]. apply lookup_insert_ne. lia.
Qed.

Lemma putNew_ok (x y : Z) (o : Module) (st : State) :
  wf st -> inGrid (fst st) x y -> wfObj o ->
  exists st', putNew x y o st = Ok st' /\ putSpec x y o st st'.
Proof.
  destruct st as [qr h]. intros (Hsv & Hl & Hc) [Hx Hy] Ho. cbn [fst snd] in *.
  unfold putNew. cbn [alloc]. unfold setModule.
  destruct (Z.ltb_spec x 0); [lia|].
  destruct (lookup_lt_is_Some_2 (modules qr) (Z.to_nat x) ltac:(lia)) as [col Ec].
  rewrite Ec.
  destruct (Forall_lookup_1 _ _ _ _ Hc Ec) as [Hlc Hrc].
  destruct (Z.leb_spec 0 y); [|lia].
  destruct (Z.ltb_spec y (Z.of_nat (length col))); [|lia].
  cbn [andb bindR]. eexists. split; [reflexivity|].
  constructor; cbn [fst snd modules size version errorCorrectionLevel next objs].
  - split; [|split]; cbn [fst snd modules size version].
    + exact Hsv.
    + rewrite length_insert. exact Hl.
    + apply Forall_insert.
      * eapply Forall_impl; [exact Hc|]. intros c [Hcl Hcr]. split; [exact Hcl|].
        eapply Forall_impl; [exact Hcr|]. intros r. apply (wfRef_alloc h o).
      * split; [rewrite length_insert; exact Hlc|].
        apply Forall_insert.
        -- eapply Forall_impl; [exact Hrc|]. intros r. apply (wfRef_alloc h o).
        -- apply (wfRef_alloc_new h o Ho).
  - unfold extends. cbn [fst snd modules size version errorCorrectionLevel next objs].
    repeat split; try reflexivity; try lia.
    intros r Hr. apply (deref_alloc_old h o r Hr).
  - reflexivity.
  - split.
    + unfold getModule. cbn [modules].
      destruct (Z.ltb_spec x 0); [lia|].
      rewrite list_lookup_insert_eq by lia.
      destruct (Z.ltb_spec y 0); [lia|].
      rewrite list_lookup_insert_eq by lia. reflexivity.
    + unfold deref. cbn [objs]. apply lookup_insert_eq.
  - intros x' y' Hne. unfold getModule. cbn [modules].
    destruct (Z.ltb_spec x' 0); [reflexivity|].
    destruct (decide (Z.to_nat x' = Z.to_nat x)) as [Ex|Nx].
    + rewrite Ex, list_lookup_insert_eq by lia. rewrite Ec.
      destruct (Z.ltb_spec y' 0); [reflexivity|].
      rewrite list_lookup_insert_ne; [reflexivity|].
      intros Ey. apply Hne. f_equal; lia.
    + rewrite list_lookup_insert_ne by congruence. reflexivity.
Qed.

Lemma getModule_wfRef (qr : QrCode) (h : Heap) (x y : Z) (r : loc) :
  wf (qr, h) -> getModule qr x y = Ok (Some r) -> wfRef h r.
Proof.
  intros (Hsv & Hl & Hc). cbn [fst snd] in *. unfold getModule.
  destruct (x <? 0); [discriminate|].
  destruct (modules qr !! Z.to_nat x) as [col|] eqn:Ec; [|discriminate].
  destruct (y <? 0); [discriminate|].
  intros E. injection E as Er.
  destruct (Forall_lookup_1 _ _ _ _ Hc Ec) as [_ Hrc].
  exact (Forall_lookup_1 _ _ _ _ Hrc Er).
Qed.

Lemma moduleAt_extends (qr qr' : QrCode) (h h' : Heap) (x y : Z) :
  wf (qr, h) -> extends (qr, h) (qr', h') ->
  getModule qr' x y = getModule qr x y ->
  moduleAt (qr', h') x y = moduleAt (qr, h) x y.
Proof.
  intros Hwf (_ & _ & _ & _ & Hd) Hg. unfold moduleAt. cbn [fst snd] in *.
  rewrite Hg. destruct (getModule qr x y) as [[r|]| |] eqn:E; try reflexivity.
  apply Hd. apply (getModule_wfRef qr h x y r Hwf E).
Qed.

Lemma putSpec_here (x y : Z) (o : Module) (st st' : State) :
  putSpec x y o st st' -> moduleAt st' x y = Some o.
Proof.
  intros [_ _ _ [Hg Hd] _]. unfold moduleAt. rewrite Hg. exact Hd.
Qed.

Lemma putSpec_there (x y : Z) (o : Module) (st st' : State) (x' y' : Z) :
  wf st -> putSpec x y o st st' -> (x', y') <> (x, y) ->
  moduleAt st' x' y' = moduleAt st x' y'.
Proof.
  destruct st as [qr h], st' as [qr' h']. intros Hwf Hp Hne.
  apply moduleAt_extends; [exact Hwf|apply Hp|]. apply (put_there _ _ _ _ _ Hp). exact Hne.
Qed.

(** ** Reading the codewords back *)

Lemma wfObj_newFilled (c : ModuleClass) (b : bool) : wfObj (newFilled c b).
Proof. intros _. cbn. eauto. Qed.

Lemma wfObj_writtenAt (data : list Z) (i : Z) : wfObj (writtenAt data i).
Proof. unfold writtenAt. destruct (_ <? _); apply wfObj_newFilled. Qed.

Section Placement.

Variable data : list Z.
Hypothesis data_bytes : Forall isByte data.

Let body : Z * Z -> Z -> State -> Result State :=
  fun '(x, y) i st =>
    if i <? Z.of_nat (length data) * 8 then
      match data !! Z.to_nat (Js.ushr i 3) with
      | None => Unmodelled
      | Some b =>
          putNew x y (newFilled CodewordModule (getBit b (7 - Js.and i 7))) st
      end
    else putNew x y newRemainder st.

Lemma body_writtenAt (x y i : Z) (st : State) :
  0 <= i < 2 ^ 31 -> body (x, y) i st = putNew x y (writtenAt data i) st.
Proof.
  intros Hi. unfold body, writtenAt.
  destruct (Z.ltb_spec i (Z.of_nat (length data) * 8)) as [Hlt|Hge]; [|reflexivity].
  rewrite JsFacts.ushr_small by (JsFacts.pow2; lia). change (2 ^ 3) with 8.
  change 7 with (Z.ones 3) at 2. rewrite JsFacts.and_ones by lia. change (2 ^ 3) with 8.
  unfold bitAt.
  assert (Hq : 0 <= i / 8 < Z.of_nat (length data)).
  { split; [apply Z.div_pos; lia|]. apply Z.div_lt_upper_bound; lia. }
  destruct (lookup_lt_is_Some_2 data (Z.to_nat (i / 8)) ltac:(lia)) as [b Eb].
  rewrite Eb.
  assert (Hb : isByte b) by exact (Forall_lookup_1 _ _ _ _ data_bytes Eb).
  pose proof (Z.mod_pos_bound i 8 ltac:(lia)) as Hm.
  rewrite JsFacts.getBit_testbit; [reflexivity| |lia].
  unfold isByte in Hb. JsFacts.pow2. lia.
Qed.

Lemma placement (l : list (Z * Z)) (i : Z) (st : State) :
  wf st -> NoDup l -> Forall (fun xy => inGrid (fst st) (fst xy) (snd xy)) l ->
  0 <= i -> i + Z.of_nat (length l) < 2 ^ 31 ->
  exists st',
    QrCode.forEachFrom body i l st = Ok st'
    /\ wf st' /\ extends st st'
    /\ (forall k xy, l !! k = Some xy ->
                     moduleAt st' (fst xy) (snd xy) = Some (writtenAt data (i + Z.of_nat k)))
    /\ (forall x y, (x, y) ∉ l -> moduleAt st' x y = moduleAt st x y).
Proof.
  intros Hwf Hnd. revert i st Hwf.
  induction Hnd as [|[x y] l Hnotin Hnd IH]; intros i st Hwf Hin Hi Hlen;
    cbn [QrCode.forEachFrom].
  - exists st. split; [reflexivity|]. split; [exact Hwf|]. split; [apply extends_refl|].
    split; [intros k xy Hk; rewrite lookup_nil in Hk; discriminate|]. reflexivity.
  - apply Forall_cons in Hin as [Hxy Hin]. cbn [fst snd] in Hxy.
    cbn [length] in Hlen.
    rewrite body_writtenAt by lia.
    destruct (putNew_ok x y (writtenAt data i) st Hwf Hxy (wfObj_writtenAt data i))
      as (st1 & E1 & Hp).
    rewrite E1. cbn [bindR].
    pose proof (put_extends _ _ _ _ _ Hp) as Hext1.
    destruct (IH (i + 1) st1 (put_wf _ _ _ _ _ Hp)) as (st' & E & Hwf' & Hext & Hcells & Hrest).
    { eapply Forall_impl; [exact Hin|]. intros [a b] Hab. cbn [fst snd] in *.
      unfold inGrid in *. destruct Hext1 as (_ & _ & -> & _). exact Hab. }
    { lia. }
    { lia. }
    exists st'. split; [exact E|]. split; [exact Hwf'|].
    split; [eapply extends_trans; eassumption|]. split.
    + intros k xy Hk. destruct k as [|k]; cbn in Hk.
      * injection Hk as <-. cbn [fst snd].
        rewrite (Hrest x y Hnotin). rewrite Z.add_0_r.
        apply (putSpec_here _ _ _ _ _ Hp).
      * rewrite (Hcells k xy Hk). f_equal. f_equal. lia.
    + intros x' y' Hn. rewrite not_elem_of_cons in Hn. destruct Hn as [Hne Hn].
      rewrite (Hrest x' y' Hn). apply (putSpec_there _ _ _ _ _ _ _ Hwf Hp Hne).
Qed.

End Placement.

Lemma readBits_written (data : list Z) (st : State) (l : list (Z * Z)) (i : Z) :
  (forall k xy, l !! k = Some xy ->
                moduleAt st (fst xy) (snd xy) = Some (writtenAt data (i + Z.of_nat k))) ->
  readBits st l = flat_map (streamBit data) (seqZ i (Z.of_nat (length l))).
Proof.
  revert i. induction l as [|xy l IH]; intros i H.
  - reflexivity.
  - cbn [length]. rewrite Nat2Z.inj_succ, seqZ_cons by lia.
    unfold readBits. cbn [flat_map]. fold (readBits st l).
    rewrite (H 0%nat xy eq_refl), Z.add_0_r.
    replace (Z.pred (Z.succ (Z.of_nat (length l)))) with (Z.of_nat (length l)) by lia.
    rewrite (IH (Z.succ i)).
    + f_equal. unfold writtenAt, streamBit.
      destruct (i <? Z.of_nat (length data) * 8); reflexivity.
    + intros k xy' Hk. rewrite (H (S k) xy' Hk). f_equal. f_equal. lia.
Qed.

Lemma stream_tail (data : list Z) (i n : Z) :
  Z.of_nat (length data) * 8 <= i -> flat_map (streamBit data) (seqZ i n) = [].
Proof.
  intros Hi. destruct (Z.le_gt_cases n 0) as [Hn|Hn].
  - now rewrite seqZ_nil by lia.
  - rewrite <- (Z2Nat.id n) by lia. clear Hn. revert i Hi.
    induction (Z.to_nat n) as [|m IH]; intros i Hi; [reflexivity|].
    rewrite Nat2Z.inj_succ, seqZ_cons by lia. cbn [flat_map].
    replace (Z.pred (Z.succ (Z.of_nat m))) with (Z.of_nat m) by lia.
    rewrite IH by lia. unfold streamBit.
    destruct (Z.ltb_spec i (Z.of_nat (length data) * 8)); [lia|reflexivity].
Qed.

Lemma stream_head (data : list Z) (i n : Z) :
  0 <= n -> i + n <= Z.of_nat (length data) * 8 ->
  flat_map (streamBit data) (seqZ i n) = map (bitAt data) (seqZ i n).
Proof.
  intros Hn. rewrite <- (Z2Nat.id n) by lia. clear Hn. revert i.
  induction (Z.to_nat n) as [|m IH]; intros i Hi; [reflexivity|].
  rewrite Nat2Z.inj_succ, seqZ_cons by lia. cbn [flat_map map].
  replace (Z.pred (Z.succ (Z.of_nat m))) with (Z.of_nat m) by lia.
  rewrite IH by lia. unfold streamBit at 1.
  destruct (Z.ltb_spec i (Z.of_nat (length data) * 8)); [reflexivity|lia].
Qed.

Lemma stream_all (data : list Z) (n : Z) :
  Z.of_nat (length data) * 8 <= n ->
  flat_map (streamBit data) (seqZ 0 n)
  = map (bitAt data) (seqZ 0 (Z.of_nat (length data) * 8)).
Proof.
  intros Hn.
  replace n with (Z.of_nat (length data) * 8 + (n - Z.of_nat (length data) * 8)) by lia.
  rewrite seqZ_app by lia. rewrite flat_map_app.
  rewrite stream_head by lia. rewrite stream_tail by lia. apply app_nil_r.
Qed.

Lemma byteOfBits_checked :
  agreeChecks
    (fun b => byteOfBits (Z.testbit b 7) (Z.testbit b 6) (Z.testbit b 5) (Z.testbit b 4)
                         (Z.testbit b 3) (Z.testbit b 2) (Z.testbit b 1) (Z.testbit b 0))
    (fun b => b) 0 256 = true.
Proof. vm_compute. reflexivity. Qed.

Lemma byteOfBits_testbit (b : Z) :
  isByte b ->
  byteOfBits (Z.testbit b 7) (Z.testbit b 6) (Z.testbit b 5) (Z.testbit b 4)
             (Z.testbit b 3) (Z.testbit b 2) (Z.testbit b 1) (Z.testbit b 0) = b.
Proof.
  intros Hb.
  destruct (agreeChecks_sound _ _ 0 256 byteOfBits_checked b
              ltac:(unfold isByte in Hb; lia)) as [H _].
  exact H.
Qed.

Lemma bitAt_cons (b : Z) (data : list Z) (j : Z) :
  0 <= j -> bitAt (b :: data) (8 + j) = bitAt data j.
Proof.
  intros Hj. unfold bitAt.
  replace (8 + j) with (j + 1 * 8) by lia.
  rewrite Z.div_add, Z.mod_add by lia.
  assert (0 <= j / 8) by (apply Z.div_pos; lia).
  replace (Z.to_nat (j / 8 + 1)) with (S (Z.to_nat (j / 8))) by lia.
  reflexivity.
Qed.

Lemma packBytes_stream (data : list Z) :
  Forall isByte data ->
  packBytes (map (bitAt data) (seqZ 0 (Z.of_nat (length data) * 8))) = data.
Proof.
  induction 1 as [|b data Hb Hd IH]; [reflexivity|].
  cbn [length]. rewrite Nat2Z.inj_succ.
  replace (Z.succ (Z.of_nat (length data)) * 8) with (8 + Z.of_nat (length data) * 8) by lia.
  rewrite seqZ_app by lia. rewrite map_app.
  change (seqZ 0 8) with [0; 1; 2; 3; 4; 5; 6; 7]. cbn [map app].
  cbn [packBytes]. f_equal.
  - unfold bitAt. cbn [lookup list_lookup Z.to_nat Z.div Z.modulo].
    apply (byteOfBits_testbit b Hb).
  - etransitivity; [|exact IH]. f_equal.
    replace (0 + 8) with (8 + 0) by lia. rewrite <- (fmap_add_seqZ 8 0).
    rewrite !map_fmap, <- list_fmap_compose.
    apply Forall_fmap_ext_1, Forall_forall. intros j Hj.
    apply elem_of_seqZ in Hj. unfold compose. apply bitAt_cons. lia.
Qed.

(** ** Runs that differ in colours only *)

Lemma rsim_bind {A B : Type} (R : A -> A -> Prop) (R' : B -> B -> Prop)
    (m1 m2 : Result A) (k1 k2 : A -> Result B) :
  rsim R m1 m2 -> (forall a b, R a b -> rsim R' (k1 a) (k2 b)) ->
  rsim R' (bindR m1 k1) (bindR m2 k2).
Proof.
  destruct m1, m2; cbn; intros H Hk; try contradiction; auto.
Qed.

Lemma forR_sim {I S : Type} (R : S -> S -> Prop) (f g : I -> S -> Result S)
    (l : list I) (s1 s2 : S) :
  (forall i s1 s2, R s1 s2 -> rsim R (f i s1) (g i s2)) ->
  R s1 s2 -> rsim R (forR f l s1) (forR g l s2).
Proof.
  intros Hfg. revert s1 s2. induction l as [|i l IH]; intros s1 s2 Hs; cbn [forR].
  - exact Hs.
  - apply (rsim_bind R R); [apply Hfg, Hs|]. exact IH.
Qed.

Lemma forR_ext {I S : Type} (f g : I -> S -> Result S) (l : list I) (s : S) :
  (forall i s, f i s = g i s) -> forR f l s = forR g l s.
Proof.
  intros Hfg. revert s. induction l as [|i l IH]; intros s; cbn [forR]; [reflexivity|].
  rewrite Hfg. destruct (g i s); cbn [bindR]; auto.
Qed.

Lemma osim_newFilled (c : ModuleClass) (b1 b2 : bool) :
  osim (newFilled c b1) (newFilled c b2).
Proof. split; [reflexivity|]. cbn. split; eauto. Qed.

Lemma osim_refl (o : Module) : osim o o.
Proof. split; [reflexivity|tauto]. Qed.

Lemma hsim_alloc (h1 h2 : Heap) (o1 o2 : Module) :
  hsim h1 h2 -> osim o1 o2 ->
  fst (alloc o1 h1) = fst (alloc o2 h2) /\ hsim (snd (alloc o1 h1)) (snd (alloc o2 h2)).
Proof.
  intros [Hn Hd] Ho. unfold alloc. cbn [fst snd]. split; [exact Hn|].
  split; cbn [next]; [now rewrite Hn|].
  intros r. unfold deref. cbn [objs]. rewrite Hn.
  destruct (decide (r = next h2)) as [->|Hne].
  - rewrite !lookup_insert_eq. constructor. exact Ho.
  - rewrite !lookup_insert_ne by congruence. apply Hd.
Qed.

Section Levels.

Variables e1 e2 : ErrorCorrectionLevel.

Lemma putNew_sim (x y : Z) (o1 o2 : Module) (s1 s2 : State) :
  ssim e1 e2 s1 s2 -> osim o1 o2 ->
  rsim (ssim e1 e2) (putNew x y o1 s1) (putNew x y o2 s2).
Proof.
  destruct s1 as [q1 h1], s2 as [q2 h2]. intros (Hv & Hs & Hm & Hh & He1 & He2) Ho.
  cbn [fst snd] in *. unfold putNew.
  destruct (hsim_alloc h1 h2 o1 o2 Hh Ho) as [Hr Hh'].
  destruct (alloc o1 h1) as [r1 h1'], (alloc o2 h2) as [r2 h2']. cbn [fst snd] in *.
  subst r2. unfold setModule. rewrite Hm, Hv, Hs.
  destruct (x <? 0); [reflexivity|].
  destruct (modules q2 !! Z.to_nat x) as [col|]; [|reflexivity].
  destruct ((0 <=? y) && (y <? Z.of_nat (length col))); [|exact I].
  cbn. unfold ssim. cbn. repeat split; try assumption; try reflexivity; apply Hh'.
Qed.

Lemma classAt_sim (s1 s2 : State) (x y : Z) :
  ssim e1 e2 s1 s2 -> classAt s1 x y = classAt s2 x y.
Proof.
  destruct s1 as [q1 h1], s2 as [q2 h2]. intros (Hv & Hs & Hm & (Hn & Hd) & _).
  cbn [fst snd] in *. unfold classAt, getModule. rewrite Hm.
  destruct (x <? 0); [reflexivity|].
  destruct (modules q2 !! Z.to_nat x) as [col|]; [|reflexivity].
  destruct (y <? 0); [reflexivity|]. cbn [bindR].
  destruct (col !! Z.to_nat y) as [r|]; [|reflexivity].
  destruct (Hd r) as [o1 o2 [Hc _]|]; [|reflexivity]. now rewrite Hc.
Qed.

Lemma new_sim (v : Z) (h : Heap) :
  rsim (ssim e1 e2) (QrCode.new v e1 h) (QrCode.new v e2 h).
Proof.
  unfold QrCode.new.
  destruct (fold_left _ (range 0 (v * 4 + 17)) ([], h)) as [column h'].
  cbn. unfold ssim, hsim. cbn. repeat split; try reflexivity.
  intros r. destruct (deref h' r); constructor; apply osim_refl.
Qed.

Ltac sim :=
  repeat match goal with
    | |- rsim _ (forR _ _ _) (forR _ _ _) => apply forR_sim; [intros|try assumption]
    | |- rsim _ (bindR _ _) (bindR _ _) => eapply rsim_bind; [|intros]
    | |- rsim _ (putNew _ _ _ _) (putNew _ _ _ _) =>
        apply putNew_sim; [assumption|try apply osim_newFilled; try apply osim_refl]
    | |- rsim _ (if ?c then _ else _) (if ?c then _ else _) => destruct c
    | |- rsim _ (Ok _) (Ok _) => cbn [rsim]; assumption
    | |- rsim _ (let '(_, _) := ?p in _) _ => destruct p
    | |- rsim _ (match ?p with (_, _) => _ end _) _ => destruct p
    end.

Lemma drawTimingPatterns_sim (s1 s2 : State) :
  ssim e1 e2 s1 s2 -> rsim (ssim e1 e2) (QrCode.drawTimingPatterns s1) (QrCode.drawTimingPatterns s2).
Proof.
  intros Hs. unfold QrCode.drawTimingPatterns.
  destruct Hs as (Hv & Hz & Hrest). rewrite Hz.
  assert (ssim e1 e2 s1 s2) by (unfold ssim; auto). sim.
Qed.

Lemma drawFinderPatterns_sim (s1 s2 : State) :
  ssim e1 e2 s1 s2 -> rsim (ssim e1 e2) (QrCode.drawFinderPatterns s1) (QrCode.drawFinderPatterns s2).
Proof.
  intros Hs. unfold QrCode.drawFinderPatterns.
  destruct Hs as (Hv & Hz & Hrest). rewrite Hz.
  assert (ssim e1 e2 s1 s2) by (unfold ssim; auto). sim.
Qed.

Lemma drawAlignmentPatterns_sim (s1 s2 : State) :
  ssim e1 e2 s1 s2 ->
  rsim (ssim e1 e2) (QrCode.drawAlignmentPatterns s1) (QrCode.drawAlignmentPatterns s2).
Proof.
  intros Hs. unfold QrCode.drawAlignmentPatterns.
  destruct Hs as (Hv & Hz & Hrest). rewrite Hv, Hz.
  assert (ssim e1 e2 s1 s2) by (unfold ssim; auto). sim. exact I.
Qed.

Lemma drawVersionInformation_sim (s1 s2 : State) :
  ssim e1 e2 s1 s2 ->
  rsim (ssim e1 e2) (QrCode.drawVersionInformation s1) (QrCode.drawVersionInformation s2).
Proof.
  intros Hs. unfold QrCode.drawVersionInformation.
  destruct Hs as (Hv & Hz & Hrest). rewrite Hv, Hz.
  assert (ssim e1 e2 s1 s2) by (unfold ssim; auto). sim. reflexivity.
Qed.

Lemma drawFormatBits_sim (m1 m2 : Z) (s1 s2 : State) :
  Js.ushr (QrCode.formatBitsField e1 m1) 15 = 0 ->
  Js.ushr (QrCode.formatBitsField e2 m2) 15 = 0 ->
  ssim e1 e2 s1 s2 ->
  rsim (ssim e1 e2) (QrCode.drawFormatBits m1 s1) (QrCode.drawFormatBits m2 s2).
Proof.
  intros H1 H2 Hs. unfold QrCode.drawFormatBits.
  destruct Hs as (Hv & Hz & Hm & Hh & He1 & He2). rewrite He1, He2, H1, H2.
  cbn [Z.eqb negb]. rewrite Hz. pose proof (conj Hm (conj Hh (conj He1 He2))) as Hrest.
  assert (ssim e1 e2 s1 s2) by (unfold ssim; auto). sim; assumption.
Qed.

Lemma scanStrip_sim (s1 s2 : State) (right : Z) :
  ssim e1 e2 s1 s2 -> QrCode.scanStrip s1 right = QrCode.scanStrip s2 right.
Proof.
  intros Hs. unfold QrCode.scanStrip.
  destruct Hs as (Hv & Hz & Hrest). rewrite Hz.
  assert (Hs : ssim e1 e2 s1 s2) by (unfold ssim; auto).
  apply forR_ext. intros vert res. apply forR_ext. intros j res'.
  now rewrite (classAt_sim s1 s2 _ _ Hs).
Qed.

Lemma makeZigZagScan_sim (s1 s2 : State) :
  ssim e1 e2 s1 s2 -> QrCode.makeZigZagScan s1 = QrCode.makeZigZagScan s2.
Proof.
  intros Hs. unfold QrCode.makeZigZagScan.
  destruct Hs as (Hv & Hz & Hrest). rewrite Hz.
  assert (Hs : ssim e1 e2 s1 s2) by (unfold ssim; auto).
  generalize (size (fst s2) - 1) as right.
  induction (S (Z.to_nat (size (fst s2)))) as [|fuel IH]; intros right;
    cbn [QrCode.scanStrips]; [reflexivity|].
  destruct (right >=? 1); [|reflexivity].
  rewrite (scanStrip_sim s1 s2 _ Hs). rewrite IH. reflexivity.
Qed.

Lemma wf_sim (s1 s2 : State) : ssim e1 e2 s1 s2 -> wf s1 -> wf s2.
Proof.
  intros (Hv & Hz & Hm & (Hn & Hd) & _) (Hsv & Hl & Hc). unfold wf.
  rewrite <- Hm, <- Hz, <- Hv. split; [exact Hsv|]. split; [exact Hl|].
  eapply Forall_impl; [exact Hc|]. intros col [Hcl Hcr]. split; [exact Hcl|].
  eapply Forall_impl; [exact Hcr|]. intros r [Hr (o & Eo & Ho)].
  split; [now rewrite <- Hn|].
  pose proof (Hd r) as Hr2. rewrite Eo in Hr2. inversion Hr2 as [o1 o2 [Hc1 Hc2]|]; subst.
  exists o2. split; [reflexivity|]. unfold wfObj in *. rewrite <- Hc1.
  intros Hf. apply Hc2, Ho, Hf.
Qed.

End Levels.

(** *** Decision procedures for the properties of a concrete grid *)

Lemma wfb_sound (st : State) : wfb st = true -> wf st.
Proof.
  unfold wfb, wf. intros H. apply andb_prop in H as [H Hc].
  apply andb_prop in H as [Hsv Hl].
  apply Nat.eqb_eq in Hl. apply Z.eqb_eq in Hsv. split; [exact Hsv|]. split; [exact Hl|].
  apply Forall_forall. intros col Hcol.
  rewrite forallb_forall in Hc. specialize (Hc col (proj1 (list_elem_of_In _ _) Hcol)).
  apply andb_prop in Hc as [Hcl Hcr]. apply Nat.eqb_eq in Hcl. split; [exact Hcl|].
  apply Forall_forall. intros r Hr.
  rewrite forallb_forall in Hcr. specialize (Hcr r (proj1 (list_elem_of_In _ _) Hr)).
  unfold wfRefb in Hcr. apply andb_prop in Hcr as [Hlt Ho].
  apply Pos.ltb_lt in Hlt. split; [exact Hlt|].
  destruct (deref (snd st) r) as [o|]; [|discriminate].
  exists o. split; [reflexivity|]. intros Hf. rewrite Hf in Ho. cbn in Ho.
  destruct (color o); [eauto|discriminate].
Qed.

Lemma distinctKeys_sound (l : list positive) (seen : Pmap unit) :
  distinctKeys l seen = true -> NoDup l /\ forall k, k ∈ l -> seen !! k = None.
Proof.
  revert seen. induction l as [|k l IH]; intros seen H; cbn [distinctKeys] in H.
  - split; [constructor|]. intros k Hk. inversion Hk.
  - destruct (seen !! k) eqn:Ek; [discriminate|].
    destruct (IH _ H) as [Hnd Hseen]. split.
    + constructor; [|exact Hnd]. intros Hin.
      specialize (Hseen k Hin). rewrite lookup_insert_eq in Hseen. discriminate.
    + intros k' Hk'. apply elem_of_cons in Hk' as [->|Hk']; [exact Ek|].
      specialize (Hseen k' Hk').
      destruct (decide (k = k')) as [->|Hne].
      * rewrite lookup_insert_eq in Hseen. discriminate.
      * now rewrite lookup_insert_ne in Hseen.
Qed.

Lemma inGridb_sound (qr : QrCode) (xy : Z * Z) :
  inGridb qr xy = true -> inGrid qr (fst xy) (snd xy).
Proof. unfold inGridb, inGrid. intros H. lia. Qed.

Lemma gridChecks_sound (v : Z) (st : State) (sc : list (Z * Z)) (n : Z) :
  gridChecks v st sc n = true -> prepared v st sc n.
Proof.
  unfold gridChecks. intros H.
  apply andb_prop in H as [H Hg]. apply andb_prop in H as [H Hf].
  apply andb_prop in H as [H He]. apply andb_prop in H as [H Hd].
  apply andb_prop in H as [H Hc]. apply andb_prop in H as [Ha Hb].
  constructor.
  - apply wfb_sound. exact Ha.
  - lia.
  - lia.
  - lia.
  - lia.
  - apply (NoDup_fmap_1 cellKey). rewrite <- map_fmap.
    exact (proj1 (distinctKeys_sound _ _ Hf)).
  - apply Forall_forall. intros xy Hxy. apply inGridb_sound.
    rewrite forallb_forall in Hg. apply Hg.
    apply list_elem_of_In. exact Hxy.
Qed.

Lemma pipelineChecks_sound (prep : Z -> Result State)
    (scan : State -> Result (list (Z * Z))) (raw : Z -> Result Z) (lo hi : Z) :
  pipelineChecks prep scan raw lo hi = true ->
  forall v, lo <= v < hi ->
    exists st sc n, prep v = Ok st /\ scan st = Ok sc /\ raw v = Ok n /\ prepared v st sc n.
Proof.
  unfold pipelineChecks. intros H v Hv.
  pose proof (forallb_range _ lo hi H v Hv) as Hc. cbv beta in Hc.
  destruct (prep v) as [st| |] eqn:E1; try discriminate.
  destruct (scan st) as [sc| |] eqn:E2; try discriminate.
  destruct (raw v) as [n| |] eqn:E3; try discriminate.
  exists st, sc, n. split; [reflexivity|]. split; [exact E2|]. split; [reflexivity|].
  apply gridChecks_sound. exact Hc.
Qed.

Lemma fieldChecks_sound (field spec : ErrorCorrectionLevel -> Z -> Z) (lo hi : Z) :
  fieldChecks field spec lo hi = true ->
  forall e m, lo <= m < hi ->
    Js.ushr (field e m) 15 = 0 /\ field e m = spec e m /\ 0 <= spec e m < 32768.
Proof.
  unfold fieldChecks. intros H e m Hm.
  rewrite forallb_forall in H.
  assert (He : In e levels) by (destruct e; cbn; auto).
  pose proof (forallb_range _ lo hi (H e He) m Hm) as Hc. cbv beta in Hc.
  apply andb_prop in Hc as [Hc H4]. apply andb_prop in Hc as [Hc H3].
  apply andb_prop in Hc as [H1 H2]. apply Z.eqb_eq in H1, H2.
  split; [exact H1|]. split; [exact H2|]. lia.
Qed.

Lemma pipeline_checked :
  pipelineChecks (fun v => drawFunctionPatterns v LOW (-1))
                 QrCode.makeZigZagScan getNumRawDataModules 1 41 = true.
Proof. vm_compute. reflexivity. Qed.

Lemma formatBitsField_checked :
  fieldChecks QrCode.formatBitsField formatFieldSpec (-1) 8 = true.
Proof. vm_compute. reflexivity. Qed.

Lemma formatBitsField_spec (e : ErrorCorrectionLevel) (m : Z) :
  -1 <= m <= 7 ->
  Js.ushr (QrCode.formatBitsField e m) 15 = 0
  /\ QrCode.formatBitsField e m = formatFieldSpec e m
  /\ 0 <= formatFieldSpec e m < 32768.
Proof.
  intros Hm.
  apply (fieldChecks_sound _ _ (-1) 8 formatBitsField_checked e m). lia.
Qed.

Lemma drawFunctionPatterns_sim (v : Z) (e1 e2 : ErrorCorrectionLevel) (m1 m2 : Z) :
  -1 <= m1 <= 7 -> -1 <= m2 <= 7 ->
  rsim (ssim e1 e2) (drawFunctionPatterns v e1 m1) (drawFunctionPatterns v e2 m2).
Proof.
  intros H1 H2. unfold drawFunctionPatterns.
  eapply rsim_bind; [apply new_sim|]. intros a1 a2 Ha.
  eapply rsim_bind; [apply drawTimingPatterns_sim, Ha|]. intros b1 b2 Hb.
  eapply rsim_bind; [apply drawFinderPatterns_sim, Hb|]. intros c1 c2 Hc.
  eapply rsim_bind; [apply drawAlignmentPatterns_sim, Hc|]. intros d1 d2 Hd.
  eapply rsim_bind.
  - apply drawFormatBits_sim; [apply formatBitsField_spec, H1
                              |apply formatBitsField_spec, H2|exact Hd].
  - intros f1 f2 Hf. apply drawVersionInformation_sim, Hf.
Qed.

Lemma numUnfilled_sim (e1 e2 : ErrorCorrectionLevel) (s1 s2 : State) :
  ssim e1 e2 s1 s2 -> numUnfilled s1 = numUnfilled s2.
Proof.
  intros (Hv & Hz & Hm & (Hn & Hd) & _). unfold numUnfilled. rewrite Hm.
  do 2 f_equal. apply list_filter_iff. intros r. unfold isUnfilledRef.
  destruct (Hd r) as [o1 o2 [Hc _]|]; [rewrite Hc|]; reflexivity.
Qed.

(** The grid before data placement, for any level and format mask. *)
Lemma pipeline_facts (v : Z) (ecl : ErrorCorrectionLevel) (mask : Z) :
  1 <= v <= 40 -> -1 <= mask <= 7 ->
  exists st sc n,
    drawFunctionPatterns v ecl mask = Ok st
    /\ QrCode.makeZigZagScan st = Ok sc
    /\ getNumRawDataModules v = Ok n
    /\ prepared v st sc n.
Proof.
  intros Hv Hm.
  destruct (pipelineChecks_sound _ _ _ 1 41 pipeline_checked v ltac:(lia))
    as (st0 & sc & n & E0 & Esc & En & Hp).
  cbv beta in E0.
  pose proof (drawFunctionPatterns_sim v LOW ecl (-1) mask ltac:(lia) Hm) as Hsim.
  rewrite E0 in Hsim.
  destruct (drawFunctionPatterns v ecl mask) as [st| |]; cbn [rsim] in Hsim;
    try contradiction.
  exists st, sc, n. split; [reflexivity|].
  split; [rewrite <- (makeZigZagScan_sim _ _ _ _ Hsim); exact Esc|].
  split; [exact En|].
  destruct Hp as [P1 P2 P3 P4 P5 P6 P7].
  pose proof Hsim as (Sv & Sz & Sm & Sh & _).
  constructor.
  - apply (wf_sim _ _ _ _ Hsim P1).
  - congruence.
  - congruence.
  - exact P4.
  - rewrite <- (numUnfilled_sim _ _ _ _ Hsim). exact P5.
  - exact P6.
  - eapply Forall_impl; [exact P7|]. intros xy. unfold inGrid. now rewrite Sz.
Qed.

(** Claim C7.  For every version in [1, 40], every level and every format
    mask from -1 to 7: after the constructor and the drawing of the timing,
    finder, alignment, format and version patterns, [makeZigZagScan]
    returns exactly [getNumRawDataModules v] coordinate pairs, which is also
    the number of cells still unfilled. *)
Theorem zigZagScan_length_is_capacity (v : Z) (ecl : ErrorCorrectionLevel) (mask : Z) :
  1 <= v <= 40 -> -1 <= mask <= 7 ->
  exists st sc n,
    drawFunctionPatterns v ecl mask = Ok st
    /\ QrCode.makeZigZagScan st = Ok sc
    /\ getNumRawDataModules v = Ok n
    /\ Z.of_nat (length sc) = n
    /\ numUnfilled st = n.
Proof.
  intros Hv Hm.
  destruct (pipeline_facts v ecl mask Hv Hm) as (st & sc & n & E1 & E2 & E3 & Hp).
  exists st, sc, n. repeat split; try assumption; apply Hp.
Qed.

Lemma zigZagScan_length_is_capacity_witness :
  exists st sc n,
    drawFunctionPatterns 7 QUARTILE 5 = Ok st
    /\ QrCode.makeZigZagScan st = Ok sc
    /\ getNumRawDataModules 7 = Ok n
    /\ Z.of_nat (length sc) = n
    /\ numUnfilled st = n.
Proof. apply (zigZagScan_length_is_capacity 7 QUARTILE 5); lia. Defined.

Lemma new_column (lo : loc) (l : list Z) (col : list loc) (h : Heap) :
  (lo <= next h)%positive ->
  Forall (unfilledRef lo h) col ->
  exists col' h',
    fold_left (fun (s : list loc * Heap) (_ : Z) =>
                 let '(column, h) := s in
                 let '(r, h) := alloc newUnfilled h in
                 (column ++ [r], h)) l (col, h) = (col', h')
    /\ Forall (unfilledRef lo h') col'
    /\ length col' = (length col + length l)%nat
    /\ (next h <= next h')%positive
    /\ (forall r, (r < next h)%positive -> deref h' r = deref h r).
Proof.
  revert col h. induction l as [|i l IH]; intros col h Hlo Hcol; cbn [fold_left].
  - exists col, h. split; [reflexivity|]. split; [exact Hcol|].
    split; [cbn; lia|]. split; [lia|]. reflexivity.
  - cbn [alloc].
    destruct (IH (col ++ [next h])
                 {| objs := <[next h:=newUnfilled]> (objs h); next := Pos.succ (next h) |})
      as (col' & h' & E & Hc & Hl & Hn & Hd).
    { cbn [next]. lia. }
    { apply Forall_app. split.
      - eapply Forall_impl; [exact Hcol|]. intros r [Hr Ho]. split; cbn [next]; [lia|].
        unfold deref. cbn [objs]. rewrite lookup_insert_ne by lia. exact Ho.
      - repeat constructor; cbn [next]; try lia.
        unfold deref. cbn [objs]. apply lookup_insert_eq. }
    exists col', h'. split; [exact E|]. split; [exact Hc|].
    cbn [next] in Hn. rewrite length_app in Hl. cbn [length] in Hl. cbn [length].
    split; [lia|]. split; [lia|].
    intros r Hr. rewrite Hd by (cbn [next]; lia).
    unfold deref. cbn [objs]. apply lookup_insert_ne. lia.
Qed.

Lemma new_columns (column : list loc) (l : list Z) (acc : list (list loc)) :
  fold_left (fun (ms : list (list loc)) (_ : Z) => ms ++ [column]) l acc
  = acc ++ replicate (length l) column.
Proof.
  revert acc. induction l as [|i l IH]; intros acc; cbn [fold_left length replicate].
  - now rewrite app_nil_r.
  - rewrite IH, <- app_assoc. reflexivity.
Qed.

(** The grid the constructor returns. *)
Lemma new_spec (v : Z) (ecl : ErrorCorrectionLevel) (h : Heap) :
  exists column h',
    QrCode.new v ecl h
    = Ok ({| version := v; errorCorrectionLevel := ecl; size := v * 4 + 17;
             modules := replicate (Z.to_nat (v * 4 + 17)) column |}, h')
    /\ length column = Z.to_nat (v * 4 + 17)
    /\ Forall (unfilledRef (next h) h') column
    /\ (next h <= next h')%positive
    /\ (forall r, (r < next h)%positive -> deref h' r = deref h r).
Proof.
  unfold QrCode.new.
  destruct (new_column (next h) (range 0 (v * 4 + 17)) [] h ltac:(lia) ltac:(constructor))
    as (column & h' & E & Hc & Hl & Hn & Hd).
  rewrite E. exists column, h'. rewrite new_columns. cbn [app].
  rewrite range_length in *. replace (v * 4 + 17 - 0) with (v * 4 + 17) in * by lia.
  cbn [length] in Hl. auto.
Qed.

Lemma wfObj_newUnfilled : wfObj newUnfilled.
Proof. intros H. discriminate H. Qed.

Lemma new_wf (v : Z) (ecl : ErrorCorrectionLevel) (h : Heap) :
  exists st, QrCode.new v ecl h = Ok st /\ wf st /\ extends (st.1, h) st
             /\ version (fst st) = v /\ errorCorrectionLevel (fst st) = ecl
             /\ size (fst st) = v * 4 + 17
             /\ (forall x y r, getModule (fst st) x y = Ok (Some r) ->
                               (next h <= r)%positive)
             /\ (forall x y, inGrid (fst st) x y -> moduleAt st x y = Some newUnfilled).
Proof.
  destruct (new_spec v ecl h) as (column & h' & E & Hl & Hc & Hn & Hd).
  eexists. split; [exact E|]. cbn [fst snd version errorCorrectionLevel size modules].
  split; [|split; [|split; [|split; [|split; [|split]]]]]; try reflexivity.
  - split; [|split]; cbn [fst snd modules size version].
    + reflexivity.
    + apply length_replicate.
    + apply Forall_replicate. split; [exact Hl|].
      eapply Forall_impl; [exact Hc|]. intros r [Hr Ho]. split; [lia|].
      exists newUnfilled. split; [exact Ho|apply wfObj_newUnfilled].
  - unfold extends. cbn [fst snd version errorCorrectionLevel size]. auto.
  - intros x y r. unfold getModule. cbn [modules].
    destruct (x <? 0); [discriminate|].
    destruct (replicate _ column !! Z.to_nat x) as [col|] eqn:Ec; [|discriminate].
    apply lookup_replicate in Ec as [-> _].
    destruct (y <? 0); [discriminate|]. intros Er. injection Er as Er.
    destruct (Forall_lookup_1 _ _ _ _ Hc Er) as [Hr _]. lia.
  - intros x y [Hx Hy]. cbn [fst size] in Hx, Hy.
    unfold moduleAt, getModule. cbn [fst snd modules].
    destruct (Z.ltb_spec x 0); [lia|].
    rewrite lookup_replicate_2 by lia.
    destruct (Z.ltb_spec y 0); [lia|].
    destruct (lookup_lt_is_Some_2 column (Z.to_nat y) ltac:(lia)) as [r Er].
    rewrite Er. apply (Forall_lookup_1 _ _ _ _ Hc Er).
Qed.

(** Claim C6, amended.  The constructor checks nothing: for every version
    and level it returns a square grid of side [version * 4 + 17] (no cell
    at all when that is not positive) whose cells all hold an
    [UnfilledModule].  The range [1, 40] is enforced by
    [getNumRawDataModules], not by the constructor. *)
Theorem new_never_fails (v : Z) (ecl : ErrorCorrectionLevel) (h : Heap) :
  exists st,
    QrCode.new v ecl h = Ok st
    /\ version (fst st) = v
    /\ errorCorrectionLevel (fst st) = ecl
    /\ size (fst st) = v * 4 + 17
    /\ length (modules (fst st)) = Z.to_nat (size (fst st))
    /\ Forall (fun col => length col = Z.to_nat (size (fst st))) (modules (fst st))
    /\ forall x y, 0 <= x < size (fst st) -> 0 <= y < size (fst st) ->
                   classAt st x y = Ok (Some UnfilledModule).
Proof.
  destruct (new_spec v ecl h) as (column & h' & E & Hl & Hc & Hn & Hd).
  eexists. split; [exact E|]. cbn [fst snd version errorCorrectionLevel size modules].
  split; [reflexivity|]. split; [reflexivity|]. split; [reflexivity|].
  split; [apply length_replicate|]. split; [apply Forall_replicate; exact Hl|].
  intros x y Hx Hy. unfold classAt, getModule. cbn [modules].
  destruct (Z.ltb_spec x 0); [lia|].
  rewrite lookup_replicate_2 by lia.
  destruct (Z.ltb_spec y 0); [lia|]. cbn [bindR].
  destruct (lookup_lt_is_Some_2 column (Z.to_nat y) ltac:(lia)) as [r Er].
  rewrite Er. destruct (Forall_lookup_1 _ _ _ _ Hc Er) as [_ Ho].
  rewrite Ho. reflexivity.
Qed.

(** Claim C6 as stated fails: the constructor accepts version 41 and
    returns a grid of side 181. *)
Lemma new_accepts_version_41 :
  exists st, QrCode.new 41 LOW emptyHeap = Ok st /\ size (fst st) = 181.
Proof.
  destruct (new_spec 41 LOW emptyHeap) as (column & h' & E & _).
  eexists. split; [exact E|]. reflexivity.
Qed.

Lemma boundChecks_sound (f : Z -> Result Z) (bound lo hi : Z) :
  boundChecks f bound lo hi = true ->
  forall v, lo <= v < hi -> exists n, f v = Ok n /\ 0 <= n < bound.
Proof.
  unfold boundChecks. intros H v Hv.
  pose proof (forallb_range _ lo hi H v Hv) as Hc. cbv beta in Hc.
  destruct (f v) as [n| |]; try discriminate.
  exists n. split; [reflexivity|]. lia.
Qed.

Lemma getNumRawDataModules_checked :
  boundChecks getNumRawDataModules 32768 1 41 = true.
Proof. vm_compute. reflexivity. Qed.

(** Writing [data] along a scan of distinct cells of the grid that is long
    enough, then reading the codeword cells back. *)
Lemma drawCodewords_readBits (data : list Z) (scan : list (Z * Z)) (st : State) (n : Z) :
  wf st ->
  getNumRawDataModules (version (fst st)) = Ok n ->
  Z.of_nat (length data) = n / 8 ->
  Forall isByte data ->
  NoDup scan ->
  Forall (fun xy => inGrid (fst st) (fst xy) (snd xy)) scan ->
  Z.of_nat (length data) * 8 <= Z.of_nat (length scan) < 2 ^ 31 ->
  exists st',
    QrCode.drawCodewords data scan st = Ok st'
    /\ wf st'
    /\ packBytes (readBits st' scan) = data.
Proof.
  intros Hwf Hraw Hlen Hbytes Hnd Hin Hcap.
  unfold QrCode.drawCodewords. rewrite Hraw. cbn [bindR]. cbv zeta.
  unfold Js.floorDiv. rewrite Hlen, Z.eqb_refl. cbn [negb]. rewrite <- Hlen.
  destruct (placement data Hbytes scan 0 st Hwf Hnd Hin ltac:(lia) ltac:(lia))
    as (st' & E & Hwf' & _ & Hcells & _).
  exists st'. split; [exact E|]. split; [exact Hwf'|].
  rewrite (readBits_written data st' scan 0 Hcells).
  rewrite stream_all by lia. apply packBytes_stream, Hbytes.
Qed.

(** Claim C1.  For every version in [1, 40], every level, every format
    mask from -1 to 7 and every sequence of bytes of length
    [floor (getNumRawDataModules v / 8)]: drawing the function patterns,
    taking the zig-zag scan, writing the bytes with [drawCodewords] and
    reading back along the same scan the bits of the codeword cells, most
    significant bit first, gives the bytes that were written. *)
Theorem drawCodewords_roundtrip (v : Z) (ecl : ErrorCorrectionLevel) (mask : Z)
    (data : list Z) (n : Z) :
  1 <= v <= 40 -> -1 <= mask <= 7 ->
  getNumRawDataModules v = Ok n ->
  Z.of_nat (length data) = n / 8 ->
  Forall (fun b => 0 <= b <= 255) data ->
  exists st scan st',
    drawFunctionPatterns v ecl mask = Ok st
    /\ QrCode.makeZigZagScan st = Ok scan
    /\ QrCode.drawCodewords data scan st = Ok st'
    /\ packBytes (readBits st' scan) = data.
Proof.
  intros Hv Hm Hraw Hlen Hbytes.
  destruct (pipeline_facts v ecl mask Hv Hm) as (st & sc & n' & E1 & E2 & E3 & Hp).
  assert (n' = n) by congruence. subst n'.
  destruct (boundChecks_sound _ _ 1 41 getNumRawDataModules_checked v ltac:(lia))
    as (n' & E3' & Hn).
  assert (n' = n) by congruence. subst n'.
  destruct Hp as [P1 P2 P3 P4 P5 P6 P7].
  destruct (drawCodewords_readBits data sc st n P1) as (st' & E & _ & Hr); try assumption.
  - rewrite P2. exact Hraw.
  - rewrite P4, Hlen. pose proof (Z.mul_div_le n 8 ltac:(lia)). JsFacts.pow2. lia.
  - exists st, sc, st'. auto.
Qed.

Lemma drawCodewords_roundtrip_witness :
  exists st scan st',
    drawFunctionPatterns 1 LOW (-1) = Ok st
    /\ QrCode.makeZigZagScan st = Ok scan
    /\ QrCode.drawCodewords
         [32; 91; 11; 120; 209; 114; 220; 77; 67; 64; 236; 17; 236;
          17; 236; 17; 196; 35; 39; 119; 235; 215; 231; 226; 93; 23] scan st = Ok st'
    /\ packBytes (readBits st' scan)
       = [32; 91; 11; 120; 209; 114; 220; 77; 67; 64; 236; 17; 236;
          17; 236; 17; 196; 35; 39; 119; 235; 215; 231; 226; 93; 23].
Proof.
  apply (drawCodewords_roundtrip 1 LOW (-1) _ 208); try lia.
  - reflexivity.
  - reflexivity.
  - repeat constructor; lia.
Defined.

(** A counting loop with an invariant that depends on the counter. *)
Lemma forR_seqZ {S : Type} (Inv : Z -> S -> Prop) (body : Z -> S -> Result S)
    (n : nat) (lo : Z) (s : S) :
  Inv lo s ->
  (forall i s, lo <= i < lo + Z.of_nat n -> Inv i s ->
               exists s', body i s = Ok s' /\ Inv (i + 1) s') ->
  exists s', forR body (seqZ lo (Z.of_nat n)) s = Ok s' /\ Inv (lo + Z.of_nat n) s'.
Proof.
  revert lo s. induction n as [|n IH]; intros lo s Hinv Hbody.
  - cbn [forR seqZ]. exists s. split; [reflexivity|]. now rewrite Z.add_0_r.
  - rewrite Nat2Z.inj_succ, seqZ_cons by lia. cbn [forR].
    destruct (Hbody lo s ltac:(lia) Hinv) as (s1 & E1 & H1).
    rewrite E1. cbn [bindR].
    replace (Z.pred (Z.succ (Z.of_nat n))) with (Z.of_nat n) by lia.
    destruct (IH (Z.succ lo) s1) as (s' & E & H').
    + replace (Z.succ lo) with (lo + 1) by lia. exact H1.
    + intros i t Hi. apply Hbody. lia.
    + exists s'. split; [exact E|].
      replace (lo + Z.succ (Z.of_nat n)) with (Z.succ lo + Z.of_nat n) by lia. exact H'.
Qed.

Lemma forR_range {S : Type} (Inv : Z -> S -> Prop) (body : Z -> S -> Result S)
    (lo hi : Z) (s : S) :
  lo <= hi -> Inv lo s ->
  (forall i s, lo <= i < hi -> Inv i s -> exists s', body i s = Ok s' /\ Inv (i + 1) s') ->
  exists s', forR body (range lo hi) s = Ok s' /\ Inv hi s'.
Proof.
  intros Hle Hinv Hbody. unfold range.
  destruct (forR_seqZ Inv body (Z.to_nat (hi - lo)) lo s Hinv) as (s' & E & H').
  - intros i t Hi. apply Hbody. lia.
  - rewrite Z2Nat.id in E, H' by lia. exists s'. split; [exact E|].
    replace (lo + (hi - lo)) with hi in H' by lia. exact H'.
Qed.

Lemma maskInvert_ok (mask x y : Z) :
  0 <= mask <= 7 -> exists b, QrCode.maskInvert mask x y = Ok b.
Proof.
  intros H.
  assert (mask = 0 \/ mask = 1 \/ mask = 2 \/ mask = 3 \/ mask = 4
          \/ mask = 5 \/ mask = 6 \/ mask = 7) as Hc by lia.
  repeat destruct Hc as [->|Hc]; try subst mask; eexists; reflexivity.
Qed.

Section MakeMask.

Variable mask : Z.
Variable this : QrCode.
Variable h : Heap.
Hypothesis mask_range : 0 <= mask <= 7.
Hypothesis this_wf : wf (this, h).

(** The state of the loops: a well-formed grid of fresh references, over
    a heap that extends [h]. *)
Definition maskBase (st : State) : Prop :=
  wf st /\ size (fst st) = size this
  /\ (next h <= next (snd st))%positive
  /\ (forall r, (r < next h)%positive -> deref (snd st) r = deref h r)
  /\ (forall x y r, getModule (fst st) x y = Ok (Some r) -> (next h <= r)%positive).

(** The cells before [(x, y)] in the order of the loops are done; the
    others still hold an [UnfilledModule]. *)
Definition maskInv (x y : Z) (st : State) : Prop :=
  maskBase st
  /\ forall x' y', inGrid this x' y' ->
       moduleAt st x' y'
       = Some (if (x' <? x) || ((x' =? x) && (y' <? y))
               then maskObject mask (this, h) x' y' else newUnfilled).

Lemma classAt_this (st : State) (x y : Z) :
  maskBase st -> inGrid this x y ->
  classAt (this, snd st) x y
  = Ok (match moduleAt (this, h) x y with Some o => Some (cls o) | None => None end)
  /\ is_Some (moduleAt (this, h) x y).
Proof.
  intros (_ & _ & _ & Hd & _) Hin.
  destruct (getModule_in this h x y this_wf Hin) as (r & Er & Hr & o & Eo & _).
  unfold classAt, moduleAt. cbn [fst snd]. rewrite Er. cbn [bindR].
  rewrite (Hd r Hr), Eo. eauto.
Qed.

(** The body of the two loops of [makeMask]. *)
Let cellBody (x y : Z) (result : State) : Result State :=
  do invert <- QrCode.maskInvert mask x y;
  do c <- classAt (this, snd result) x y;
  if negb (match c with Some c => instanceofFunction c | None => false end) then
    putNew x y (newFilled FilledModule invert) result
  else Ok result.

Lemma maskCell (x y : Z) (st : State) :
  inGrid this x y -> maskInv x y st ->
  exists st', cellBody x y st = Ok st' /\ maskInv x (y + 1) st'.
Proof.
  intros Hin [Hbase Hcells]. unfold cellBody.
  destruct (maskInvert_ok mask x y mask_range) as [b Eb]. rewrite Eb. cbn [bindR].
  destruct (classAt_this st x y Hbase Hin) as [Ec [o Eo]]. rewrite Ec, Eo. cbn [bindR].
  assert (Hobj : maskObject mask (this, h) x y
                 = if instanceofFunction (cls o) then newUnfilled
                   else newFilled FilledModule b).
  { unfold maskObject, isFunctionAt. rewrite Eo, Eb. reflexivity. }
  destruct (instanceofFunction (cls o)) eqn:Ef; cbn [negb].
  - exists st. split; [reflexivity|]. split; [exact Hbase|].
    intros x' y' Hin'. rewrite (Hcells x' y' Hin').
    destruct (Z.ltb_spec x' x); cbn [orb]; [reflexivity|].
    destruct (Z.eqb_spec x' x) as [->|]; cbn [andb]; [|reflexivity].
    destruct (Z.ltb_spec y' y), (Z.ltb_spec y' (y + 1)); try lia; try reflexivity.
    assert (y' = y) by lia. subst y'. now rewrite Hobj.
  - destruct Hbase as (Hwf & Hsz & Hn & Hd & Hfresh).
    destruct (putNew_ok x y (newFilled FilledModule b) st Hwf
                ltac:(unfold inGrid in *; rewrite Hsz; exact Hin)
                (wfObj_newFilled _ _)) as (st' & E & Hp).
    exists st'. split; [exact E|].
    pose proof (put_extends _ _ _ _ _ Hp) as (_ & _ & Hsz' & Hn' & Hd').
    split.
    + split; [apply Hp|]. split; [congruence|]. split; [lia|]. split.
      * intros r Hr. rewrite Hd' by lia. apply Hd, Hr.
      * intros x' y' r Hg.
        destruct (decide ((x', y') = (x, y))) as [Heq|Hne].
        -- injection Heq as -> ->. destruct (put_here _ _ _ _ _ Hp) as [Hg' _].
           rewrite Hg' in Hg. injection Hg as <-. exact Hn.
        -- rewrite (put_there _ _ _ _ _ Hp x' y' Hne) in Hg. eapply Hfresh, Hg.
    + intros x' y' Hin'.
      destruct (decide ((x', y') = (x, y))) as [Heq|Hne].
      * injection Heq as -> ->. rewrite (putSpec_here _ _ _ _ _ Hp).
        destruct (Z.ltb_spec x x); [lia|]. rewrite Z.eqb_refl.
        destruct (Z.ltb_spec y (y + 1)); [|lia]. cbn [orb andb]. now rewrite Hobj.
      * rewrite (putSpec_there _ _ _ _ _ _ _ Hwf Hp Hne), (Hcells x' y' Hin').
        destruct (Z.ltb_spec x' x); cbn [orb]; [reflexivity|].
        destruct (Z.eqb_spec x' x) as [->|]; cbn [andb]; [|reflexivity].
        destruct (Z.ltb_spec y' y), (Z.ltb_spec y' (y + 1)); try lia; try reflexivity.
        exfalso. apply Hne. f_equal. lia.
Qed.

Lemma maskColumn (x : Z) (st : State) :
  0 <= x < size this -> maskInv x 0 st ->
  exists st',
    forR (cellBody x) (range 0 (size this)) st = Ok st' /\ maskInv (x + 1) 0 st'.
Proof.
  intros Hx Hinv.
  destruct (forR_range (maskInv x) (cellBody x) 0 (size this) st ltac:(lia) Hinv)
    as (st' & E & Hst').
  - intros y s Hy Hs. apply maskCell; [split; lia|exact Hs].
  - exists st'. split; [exact E|]. destruct Hst' as [Hbase Hcells]. split; [exact Hbase|].
    intros x' y' Hin'. rewrite (Hcells x' y' Hin'). f_equal.
    destruct Hin' as [Hx' Hy'].
    destruct (Z.ltb_spec x' x), (Z.ltb_spec x' (x + 1)), (Z.eqb_spec x' x),
      (Z.eqb_spec x' (x + 1)), (Z.ltb_spec y' (size this)), (Z.ltb_spec y' 0);
      try lia; reflexivity.
Qed.

(** What [makeMask] returns. *)
Lemma makeMask_spec :
  exists st,
    QrCode.makeMask mask this h = Ok st
    /\ maskBase st
    /\ forall x y, inGrid this x y ->
                   moduleAt st x y = Some (maskObject mask (this, h) x y).
Proof.
  unfold QrCode.makeMask.
  destruct (new_wf (version this) (errorCorrectionLevel this) h)
    as (st0 & E0 & Hwf0 & Hext0 & Hv0 & He0 & Hs0 & Hfresh0 & Hcells0).
  rewrite E0. cbn [bindR].
  assert (Hsz : size (fst st0) = size this).
  { destruct this_wf as [Hsv _]. cbn [fst] in Hsv. congruence. }
  destruct Hext0 as (_ & _ & _ & Hn0 & Hd0). cbn [fst snd] in Hn0, Hd0.
  assert (Hinit : maskInv 0 0 st0).
  { split.
    - split; [exact Hwf0|]. split; [exact Hsz|]. split; [exact Hn0|].
      split; [exact Hd0|]. exact Hfresh0.
    - intros x' y' Hin. rewrite Hcells0 by (unfold inGrid; rewrite Hsz; exact Hin).
      destruct Hin as [Hx' Hy'].
      destruct (Z.ltb_spec x' 0), (Z.ltb_spec y' 0); try lia.
      cbn [orb]. now rewrite andb_false_r. }
  destruct (Z.le_gt_cases 0 (size this)) as [Hpos|Hneg].
  - destruct (forR_range (fun x => maskInv x 0)
                (fun x result => forR (cellBody x) (range 0 (size this)) result)
                0 (size this) st0 Hpos Hinit) as (st & E & Hst).
    + intros x s Hx Hs. apply maskColumn; assumption.
    + exists st. split; [exact E|]. destruct Hst as [Hbase Hcells]. split; [exact Hbase|].
      intros x y Hin. rewrite (Hcells x y Hin).
      destruct Hin as [Hx Hy]. destruct (Z.ltb_spec x (size this)); [reflexivity|lia].
  - unfold range. rewrite seqZ_nil by lia. cbn [forR].
    exists st0. split; [reflexivity|]. split; [apply Hinit|].
    intros x y [Hx Hy]. lia.
Qed.

End MakeMask.

(** ** [applyMask] *)

Lemma colourOnly_refl (n0 : loc) (h : Heap) : colourOnly n0 h h.
Proof. intros r. destruct (deref h r); auto. Qed.

Lemma deref_setColor (r r' : loc) (c : bool) (h : Heap) :
  deref (setColor r c h) r'
  = if decide (r = r')
    then (fun o => {| cls := cls o; color := Some c; isNew := isNew o |}) <$> deref h r'
    else deref h r'.
Proof.
  unfold deref, setColor. cbn [objs]. rewrite lookup_alter.
  destruct (decide (r = r')) as [->|]; reflexivity.
Qed.

Section ApplyMask.

Variables mask this : QrCode.
Variable n0 : loc.
Variable h1 : Heap.

(** The mask and the grid it is applied to, in the heap [h1]: every cell
    of the grid has a cell in the mask; the objects of the mask are
    allocated from [n0] on, those of the grid before; a filled mask cell
    has a colour and lies over a cell that is no function module. *)
Hypothesis cells :
  forall x y, inGrid this x y ->
    exists ra a rb b,
      getModule mask x y = Ok (Some ra) /\ deref h1 ra = Some a
      /\ getModule this x y = Ok (Some rb) /\ deref h1 rb = Some b
      /\ (n0 <= ra)%positive /\ (rb < n0)%positive
      /\ (instanceofFilled (cls a) = true ->
          is_Some (color a) /\ instanceofFunction (cls b) = false).

Let cellBody (x y : Z) (h : Heap) : Result Heap :=
  do ra <- getModule mask x y;
  match ra with
  | None => Ok h
  | Some ra =>
      match deref h ra with
      | None => Unmodelled
      | Some a =>
          if instanceofFilled (cls a) then
            do rb <- getModule this x y;
            match rb with
            | None => Throw "TypeError"
            | Some rb =>
                match deref h rb with
                | None => Unmodelled
                | Some b => Ok (setColor rb (Js.neq (color b) (color a)) h)
                end
            end
          else Ok h
      end
  end.

(** One cell: the outcome in terms of the objects of [h1]. *)
Lemma cellBody_eq (x y : Z) (ra rb : loc) (a b : Module) (hc : Heap) :
  getModule mask x y = Ok (Some ra) -> deref h1 ra = Some a ->
  getModule this x y = Ok (Some rb) -> deref h1 rb = Some b ->
  (n0 <= ra)%positive -> colourOnly n0 h1 hc ->
  exists b',
    deref hc rb = Some b'
    /\ cellBody x y hc
       = Ok (if instanceofFilled (cls a)
             then setColor rb (Js.neq (color b') (color a)) hc else hc).
Proof.
  intros Ea Da Eb Db Hra Hco.
  pose proof (Hco ra) as Hca. rewrite Da in Hca.
  destruct (deref hc ra) as [a'|] eqn:Da'; [|contradiction].
  destruct Hca as (_ & _ & _ & Heq). rewrite (Heq (or_introl Hra)) in Da'.
  pose proof (Hco rb) as Hcb. rewrite Db in Hcb.
  destruct (deref hc rb) as [b'|] eqn:Db'; [|contradiction].
  exists b'. split; [reflexivity|].
  unfold cellBody. rewrite Ea. cbn [bindR]. rewrite Da'.
  destruct (instanceofFilled (cls a)); [|reflexivity].
  rewrite Eb. cbn [bindR]. rewrite Db'. reflexivity.
Qed.

Lemma colourOnly_setColor (rb : loc) (b : Module) (c : bool) (hc : Heap) :
  deref h1 rb = Some b -> (rb < n0)%positive -> instanceofFunction (cls b) = false ->
  colourOnly n0 h1 hc -> colourOnly n0 h1 (setColor rb c hc).
Proof.
  intros Db Hrb Hnf Hco r. specialize (Hco r). rewrite deref_setColor.
  destruct (decide (rb = r)) as [<-|Hne]; [|exact Hco].
  rewrite Db in *. destruct (deref hc rb) as [b'|]; [|contradiction].
  cbn. destruct Hco as (Hc & Hn & Hs & Heq).
  split; [exact Hc|]. split; [exact Hn|]. split; [eauto|].
  intros [Hge|Hfun]; [lia|congruence].
Qed.

Lemma cellBody_ok (x y : Z) (hc : Heap) :
  inGrid this x y -> colourOnly n0 h1 hc ->
  exists hc', cellBody x y hc = Ok hc' /\ colourOnly n0 h1 hc'.
Proof.
  intros Hin Hco.
  destruct (cells x y Hin) as (ra & a & rb & b & Ea & Da & Eb & Db & Hra & Hrb & Hf).
  destruct (cellBody_eq x y ra rb a b hc Ea Da Eb Db Hra Hco) as (b' & Db' & E).
  eexists. split; [exact E|].
  destruct (instanceofFilled (cls a)); [|exact Hco].
  apply (colourOnly_setColor rb b); try assumption. apply Hf. reflexivity.
Qed.

(** [applyMask] returns, and changes colours only. *)
Lemma applyMask_ok (hc : Heap) :
  colourOnly n0 h1 hc ->
  exists hc', QrCode.applyMask mask this hc = Ok hc' /\ colourOnly n0 h1 hc'.
Proof.
  intros Hco. unfold QrCode.applyMask.
  apply (forR_ok_inv (colourOnly n0 h1)); [exact Hco|].
  intros x h Hx Hh. apply elem_of_range in Hx.
  apply (forR_ok_inv (colourOnly n0 h1)); [exact Hh|].
  intros y h' Hy Hh'. apply elem_of_range in Hy.
  apply (cellBody_ok x y h'); [split; lia|exact Hh'].
Qed.

(** *** Two runs side by side *)

Variable D : loc -> bool.

(** The colours of [hc'] are those of [hc] flipped where [D] says so, for
    the objects that had a colour in [h1]. *)
Definition flipped (hc hc' : Heap) : Prop :=
  colourOnly n0 h1 hc /\ colourOnly n0 h1 hc'
  /\ forall r o1 o, deref h1 r = Some o1 -> is_Some (color o1) -> deref hc r = Some o ->
       exists o' c, deref hc' r = Some o' /\ color o = Some c
                    /\ color o' = Some (xorb c (D r)).

Lemma cellBody_flipped (x y : Z) (hc hc' : Heap) :
  inGrid this x y -> flipped hc hc' ->
  rsim flipped (cellBody x y hc) (cellBody x y hc').
Proof.
  intros Hin (Hco & Hco' & Hfl).
  destruct (cells x y Hin) as (ra & a & rb & b & Ea & Da & Eb & Db & Hra & Hrb & Hf).
  destruct (cellBody_eq x y ra rb a b hc Ea Da Eb Db Hra Hco) as (b1 & Db1 & E).
  destruct (cellBody_eq x y ra rb a b hc' Ea Da Eb Db Hra Hco') as (b2 & Db2 & E').
  rewrite E, E'. cbn [rsim].
  destruct (instanceofFilled (cls a)) eqn:Ef; [|repeat split; assumption].
  destruct (Hf eq_refl) as [[ca Eca] Hnf].
  split; [apply (colourOnly_setColor rb b); assumption|].
  split; [apply (colourOnly_setColor rb b); assumption|].
  intros r o1 o Do1 Hc1 Do. rewrite deref_setColor in Do. rewrite deref_setColor.
  destruct (decide (rb = r)) as [<-|Hne]; [|eapply Hfl; eassumption].
  rewrite Db1 in Do. cbn in Do. injection Do as <-. rewrite Db2. cbn.
  destruct (Hfl rb o1 b1 Do1 Hc1 Db1) as (o' & c & Do' & Ec & Ec').
  assert (o' = b2) by congruence. subst o'.
  eexists. eexists. split; [reflexivity|]. cbn [color].
  rewrite Ec, Ec', Eca. cbn [Js.neq]. split; [reflexivity|].
  f_equal. destruct c, ca, (D rb); reflexivity.
Qed.

Lemma applyMask_flipped (hc hc' : Heap) :
  flipped hc hc' ->
  rsim flipped (QrCode.applyMask mask this hc) (QrCode.applyMask mask this hc').
Proof.
  intros Hfl. unfold QrCode.applyMask.
  assert (Hgen : forall (l : list Z) (body1 body2 : Z -> Heap -> Result Heap) a b,
             (forall i s1 s2, i ∈ l -> flipped s1 s2 -> rsim flipped (body1 i s1) (body2 i s2)) ->
             flipped a b -> rsim flipped (forR body1 l a) (forR body2 l b)).
  { induction l as [|i l IH]; intros body1 body2 a b Hb Hab; cbn [forR]; [exact Hab|].
    apply (rsim_bind flipped flipped); [apply Hb; [left|exact Hab]|].
    intros a' b' Hab'. apply IH; [|exact Hab'].
    intros j s1 s2 Hj. apply Hb. now right. }
  apply Hgen; [|exact Hfl]. intros x s1 s2 Hx Hs. apply elem_of_range in Hx.
  apply Hgen; [|exact Hs]. intros y t1 t2 Hy Ht. apply elem_of_range in Hy.
  apply (cellBody_flipped x y t1 t2); [split; lia|exact Ht].
Qed.

End ApplyMask.

(** The mask of a grid, and the grid, meet the conditions of [applyMask]. *)
Lemma makeMask_cells (index : Z) (this : QrCode) (h : Heap) :
  0 <= index <= 7 -> wf (this, h) ->
  exists m h1,
    QrCode.makeMask index this h = Ok (m, h1)
    /\ (forall r, (r < next h)%positive -> deref h1 r = deref h r)
    /\ (forall x y, inGrid this x y ->
          moduleAt (m, h1) x y = Some (maskObject index (this, h) x y))
    /\ forall x y, inGrid this x y ->
         exists ra a rb b,
           getModule m x y = Ok (Some ra) /\ deref h1 ra = Some a
           /\ getModule this x y = Ok (Some rb) /\ deref h1 rb = Some b
           /\ (next h <= ra)%positive /\ (rb < next h)%positive
           /\ (instanceofFilled (cls a) = true ->
               is_Some (color a) /\ instanceofFunction (cls b) = false).
Proof.
  intros Hi Hwf.
  destruct (makeMask_spec index this h Hi Hwf) as ([m h1] & E & Hbase & Hcells).
  destruct Hbase as (Hwfm & Hsz & Hn & Hd & Hfresh). cbn [fst snd] in *.
  exists m, h1. split; [exact E|]. split; [exact Hd|]. split; [exact Hcells|].
  intros x y Hin.
  destruct (getModule_in m h1 x y Hwfm ltac:(unfold inGrid; rewrite Hsz; exact Hin))
    as (ra & Ea & _ & a & Da & _).
  destruct (getModule_in this h x y Hwf Hin) as (rb & Eb & Hrb & b & Db & _).
  exists ra, a, rb, b. split; [exact Ea|]. split; [exact Da|]. split; [exact Eb|].
  split; [rewrite (Hd rb Hrb); exact Db|]. split; [eapply Hfresh, Ea|].
  split; [exact Hrb|].
  pose proof (Hcells x y Hin) as Hm. unfold moduleAt in Hm. cbn [fst snd] in Hm.
  rewrite Ea, Da in Hm. injection Hm as ->.
  unfold maskObject, isFunctionAt, moduleAt. cbn [fst snd]. rewrite Eb, Db.
  destruct (instanceofFunction (cls b)); [discriminate|].
  destruct (QrCode.maskInvert index x y); cbn; try discriminate. eauto.
Qed.

(** Claim C2.  For every mask index from 0 to 7 and every well-formed
    grid, applying to the grid the mask that [makeMask] builds from it
    leaves the object of every function-module cell as it was: class,
    colour and flag. *)
Theorem applyMask_keeps_function_modules (index : Z) (this : QrCode) (h : Heap) :
  0 <= index <= 7 -> wf (this, h) ->
  exists m h1 h2,
    QrCode.makeMask index this h = Ok (m, h1)
    /\ QrCode.applyMask m this h1 = Ok h2
    /\ forall x y o,
         moduleAt (this, h) x y = Some o -> instanceofFunction (cls o) = true ->
         moduleAt (this, h2) x y = Some o.
Proof.
  intros Hi Hwf.
  destruct (makeMask_cells index this h Hi Hwf) as (m & h1 & E & Hd & _ & Hcells).
  destruct (applyMask_ok m this (next h) h1 Hcells h1 (colourOnly_refl _ _))
    as (h2 & E2 & Hco).
  exists m, h1, h2. split; [exact E|]. split; [exact E2|].
  intros x y o Ho Hf. unfold moduleAt in *. cbn [fst snd] in *.
  destruct (getModule this x y) as [[r|]| |] eqn:Er; try discriminate.
  destruct (getModule_wfRef this h x y r Hwf Er) as [Hr _].
  specialize (Hco r). rewrite (Hd r Hr), Ho in Hco.
  destruct (deref h2 r) as [o'|]; [|contradiction].
  destruct Hco as (_ & _ & _ & Heq). now rewrite (Heq (or_intror Hf)).
Qed.

Lemma flipped_start (n0 : loc) (h1 h2 : Heap) :
  colourOnly n0 h1 h2 -> flipped n0 h1 (colourDiff h1 h2) h1 h2.
Proof.
  intros Hco. split; [apply colourOnly_refl|]. split; [exact Hco|].
  intros r o1 o Do1 [c Ec] Do. assert (o = o1) by congruence. subst o.
  specialize (Hco r). unfold colourDiff. rewrite Do1 in *.
  destruct (deref h2 r) as [o'|]; [|contradiction].
  destruct Hco as (_ & _ & Hs & _). destruct (Hs ltac:(eauto)) as [c' Ec'].
  exists o', c. split; [reflexivity|]. split; [exact Ec|].
  rewrite Ec, Ec'. f_equal. destruct c, c'; reflexivity.
Qed.

(** Claim C3.  For every mask index from 0 to 7 and every well-formed
    grid, applying the mask built by [makeMask] twice gives every filled
    cell, so every data and remainder cell, its original module back.  The
    cells need not all be filled for this. *)
Theorem applyMask_twice_restores (index : Z) (this : QrCode) (h : Heap) :
  0 <= index <= 7 -> wf (this, h) ->
  exists m h1 h2 h3,
    QrCode.makeMask index this h = Ok (m, h1)
    /\ QrCode.applyMask m this h1 = Ok h2
    /\ QrCode.applyMask m this h2 = Ok h3
    /\ forall x y o,
         moduleAt (this, h) x y = Some o -> instanceofFilled (cls o) = true ->
         moduleAt (this, h3) x y = Some o.
Proof.
  intros Hi Hwf.
  destruct (makeMask_cells index this h Hi Hwf) as (m & h1 & E & Hd & _ & Hcells).
  destruct (applyMask_ok m this (next h) h1 Hcells h1 (colourOnly_refl _ _))
    as (h2 & E2 & Hco).
  pose proof (applyMask_flipped m this (next h) h1 Hcells (colourDiff h1 h2) h1 h2
                (flipped_start _ _ _ Hco)) as Hsim.
  rewrite E2 in Hsim.
  destruct (QrCode.applyMask m this h2) as [h3| |] eqn:E3; cbn [rsim] in Hsim;
    try contradiction.
  exists m, h1, h2, h3. split; [exact E|]. split; [exact E2|]. split; [exact E3|].
  intros x y o Ho Hf. unfold moduleAt in *. cbn [fst snd] in *.
  destruct (getModule this x y) as [[r|]| |] eqn:Er; try discriminate.
  destruct (getModule_wfRef this h x y r Hwf Er) as [Hr (o0 & Eo0 & Hwo)].
  assert (o0 = o) by congruence. subst o0.
  destruct (Hwo Hf) as [c Ec].
  destruct Hsim as (_ & Hco3 & Hfl).
  pose proof (Hco r) as Hc2. specialize (Hco3 r).
  rewrite (Hd r Hr), Ho in Hc2, Hco3.
  destruct (deref h2 r) as [o2|] eqn:D2; [|contradiction].
  destruct (Hfl r o o2 ltac:(rewrite (Hd r Hr); exact Ho) ltac:(eauto) D2)
    as (o3 & c2 & D3 & Ec2 & Ec3).
  rewrite D3 in *. destruct Hco3 as (Hcls & Hnew & _).
  unfold colourDiff in Ec3. rewrite (Hd r Hr), Ho, D2, Ec, Ec2 in Ec3.
  f_equal. destruct o3 as [k3 c3 n3], o as [k c0 n]. cbn in *. subst.
  do 2 f_equal. destruct c2, c; reflexivity.
Qed.

(** ** A sequence of writes to distinct cells *)

Lemma forR_app {I S : Type} (f : I -> S -> Result S) (l1 l2 : list I) (s : S) :
  forR f (l1 ++ l2) s = do s' <- forR f l1 s; forR f l2 s'.
Proof.
  revert s. induction l1 as [|i l1 IH]; intros s; cbn [forR app bindR]; [reflexivity|].
  destruct (f i s); cbn [bindR]; auto.
Qed.

Lemma forR_map {I J S : Type} (g : I -> J) (f : J -> S -> Result S) (l : list I) (s : S) :
  forR f (map g l) s = forR (fun i => f (g i)) l s.
Proof.
  revert s. induction l as [|i l IH]; intros s; cbn [forR map]; [reflexivity|].
  destruct (f (g i) s); cbn [bindR]; auto.
Qed.

Lemma bindR_ret {A : Type} (m : Result A) : (do a <- m; Ok a) = m.
Proof. destruct m; reflexivity. Qed.

Lemma writeAll_spec (ws : list (Z * Z * Module)) (st : State) :
  wf st -> NoDup (map fst ws) ->
  Forall (fun w => inGrid (fst st) (fst (fst w)) (snd (fst w)) /\ wfObj (snd w)) ws ->
  exists st',
    writeAll ws st = Ok st' /\ wf st' /\ extends st st'
    /\ (forall w, w ∈ ws -> moduleAt st' (fst (fst w)) (snd (fst w)) = Some (snd w))
    /\ (forall x y, (x, y) ∉ map fst ws -> moduleAt st' x y = moduleAt st x y).
Proof.
  unfold writeAll. revert st.
  induction ws as [|[[x y] o] ws IH]; intros st Hwf Hnd Hall; cbn [forR map].
  - exists st. split; [reflexivity|]. split; [exact Hwf|]. split; [apply extends_refl|].
    split; [intros w Hw; inversion Hw|reflexivity].
  - cbn [map fst snd] in Hnd. apply NoDup_cons in Hnd as [Hnotin Hnd].
    apply Forall_cons in Hall as [[Hin Ho] Hall]. cbn [fst snd] in Hin, Ho. cbn [fst snd].
    destruct (putNew_ok x y o st Hwf Hin Ho) as (st1 & E1 & Hp).
    rewrite E1. cbn [bindR].
    pose proof (put_extends _ _ _ _ _ Hp) as Hext1.
    destruct (IH st1 (put_wf _ _ _ _ _ Hp) Hnd) as (st' & E & Hwf' & Hext & Hcells & Hrest).
    { eapply Forall_impl; [exact Hall|]. intros w [Hw1 Hw2]. split; [|exact Hw2].
      unfold inGrid in *. destruct Hext1 as (_ & _ & -> & _). exact Hw1. }
    exists st'. split; [exact E|]. split; [exact Hwf'|].
    split; [eapply extends_trans; eassumption|]. split.
    + intros w Hw. apply elem_of_cons in Hw as [->|Hw]; [|apply Hcells, Hw].
      cbn [fst snd]. rewrite (Hrest x y Hnotin). apply (putSpec_here _ _ _ _ _ Hp).
    + intros x' y' Hn. cbn [map fst] in Hn. rewrite not_elem_of_cons in Hn.
      destruct Hn as [Hne Hn].
      rewrite (Hrest x' y' Hn). apply (putSpec_there _ _ _ _ _ _ _ Hwf Hp Hne).
Qed.

Lemma drawFormatBits_loops (mask : Z) (st : State) :
  QrCode.drawFormatBits mask st
  = if negb (Js.ushr (QrCode.formatBitsField (errorCorrectionLevel (fst st)) mask) 15 =? 0)
    then Throw "Assertion error"
    else formatLoops (size (fst st))
           (QrCode.formatBitsField (errorCorrectionLevel (fst st)) mask) st.
Proof. reflexivity. Qed.

Lemma bindR_ext {A B : Type} (m1 m2 : Result A) (k1 k2 : A -> Result B) :
  m1 = m2 -> (forall a, k1 a = k2 a) -> bindR m1 k1 = bindR m2 k2.
Proof. intros -> Hk. destruct m2; cbn [bindR]; auto. Qed.

Lemma forR_cons {I S : Type} (f : I -> S -> Result S) (i : I) (l : list I) (s : S) :
  forR f (i :: l) s = do s' <- f i s; forR f l s'.
Proof. reflexivity. Qed.

Lemma formatLoops_writes (sz bits : Z) (st : State) :
  formatLoops sz bits st = writeAll (formatWrites sz bits) st.
Proof.
  unfold formatLoops, writeAll, formatWrites. cbv zeta.
  rewrite forR_app. apply bindR_ext; [now rewrite forR_map|]. intros s1.
  rewrite <- app_comm_cons, forR_cons. apply bindR_ext; [reflexivity|]. intros s2.
  rewrite <- app_comm_cons, forR_cons. apply bindR_ext; [reflexivity|]. intros s3.
  rewrite <- app_comm_cons, forR_cons. apply bindR_ext; [reflexivity|]. intros s4.
  rewrite app_nil_l.
  rewrite forR_app. apply bindR_ext; [now rewrite forR_map|]. intros s5.
  rewrite forR_app. apply bindR_ext; [now rewrite forR_map|]. intros s6.
  rewrite forR_app. apply bindR_ext; [now rewrite forR_map|]. intros s7.
  rewrite forR_cons. cbn [forR]. now rewrite bindR_ret.
Qed.

Lemma formatWrites_list (sz bits : Z) :
  formatWrites sz bits
  = let fmt i := newFilled FormatInfoModule (getBit bits i) in
    [ (8, 0, fmt 0); (8, 1, fmt 1); (8, 2, fmt 2); (8, 3, fmt 3); (8, 4, fmt 4);
      (8, 5, fmt 5); (8, 7, fmt 6); (8, 8, fmt 7); (7, 8, fmt 8);
      (14 - 9, 8, fmt 9); (14 - 10, 8, fmt 10); (14 - 11, 8, fmt 11);
      (14 - 12, 8, fmt 12); (14 - 13, 8, fmt 13); (14 - 14, 8, fmt 14);
      (sz - 1 - 0, 8, fmt 0); (sz - 1 - 1, 8, fmt 1); (sz - 1 - 2, 8, fmt 2);
      (sz - 1 - 3, 8, fmt 3); (sz - 1 - 4, 8, fmt 4); (sz - 1 - 5, 8, fmt 5);
      (sz - 1 - 6, 8, fmt 6); (sz - 1 - 7, 8, fmt 7);
      (8, sz - 15 + 8, fmt 8); (8, sz - 15 + 9, fmt 9); (8, sz - 15 + 10, fmt 10);
      (8, sz - 15 + 11, fmt 11); (8, sz - 15 + 12, fmt 12); (8, sz - 15 + 13, fmt 13);
      (8, sz - 15 + 14, fmt 14); (8, sz - 8, newBlack) ].
Proof. reflexivity. Qed.

Ltac not_in_cells :=
  let H := fresh "H" in
  intros H;
  repeat (apply elem_of_cons in H as [H|H]; [injection H; intros; lia|]);
  inversion H.

Lemma formatWrites_nodup (sz bits : Z) :
  17 <= sz -> NoDup (map fst (formatWrites sz bits)).
Proof.
  intros Hsz. rewrite formatWrites_list. cbv zeta. cbn [map fst].
  repeat (apply NoDup_cons; split; [not_in_cells|]). apply NoDup_nil. exact I.
Qed.

Lemma formatWrites_inGrid (sz bits : Z) (qr : QrCode) :
  17 <= sz -> size qr = sz ->
  Forall (fun w => inGrid qr (fst (fst w)) (snd (fst w)) /\ wfObj (snd w))
         (formatWrites sz bits).
Proof.
  intros Hsz Hq. rewrite formatWrites_list. cbv zeta.
  repeat (apply Forall_cons; split;
          [split; [unfold inGrid; cbn [fst snd]; lia|apply wfObj_newFilled]|]).
  apply Forall_nil. exact I.
Qed.

Lemma formatCells_written (sz bits i x y : Z) :
  0 <= i < 15 -> (x, y) ∈ formatCells sz i ->
  (x, y, newFilled FormatInfoModule (getBit bits i)) ∈ formatWrites sz bits.
Proof.
  intros Hi Hin. rewrite formatWrites_list. cbv zeta.
  assert (i = 0 \/ i = 1 \/ i = 2 \/ i = 3 \/ i = 4 \/ i = 5 \/ i = 6 \/ i = 7 \/ i = 8
          \/ i = 9 \/ i = 10 \/ i = 11 \/ i = 12 \/ i = 13 \/ i = 14) as Hc by lia.
  repeat destruct Hc as [->|Hc]; try subst i;
    unfold formatCells in Hin; cbn [Z.ltb Z.eqb Z.compare Pos.compare Pos.compare_cont] in Hin;
    apply elem_of_cons in Hin as [Hin|Hin];
    try (apply elem_of_cons in Hin as [Hin|Hin]; [|inversion Hin]);
    injection Hin as -> ->;
    apply list_elem_of_In; cbn [In];
    repeat (first [left; reflexivity | right]).
Qed.

(** Claim C4.  For every level and mask index from 0 to 7 the field
    [drawFormatBits] computes is [(data << 10 | rem) ^ 0x5412] with
    [data = formatBits << 3 | mask] and [rem] the result of ten rounds of
    [rem = (rem << 1) ^ ((rem >>> 9) & 1) * 0x537]; with mask -1 it is 0.
    After the call, on a well-formed grid of version at least 1, the two
    cells of bit [i] hold a [FormatInfoModule] whose colour is bit [i] of
    that field (so all are light for mask -1), and the cell
    [(8, size - 8)] holds the dark module. *)
Theorem drawFormatBits_field (mask : Z) (st : State) :
  wf st -> 1 <= version (fst st) -> -1 <= mask <= 7 ->
  let ecl := errorCorrectionLevel (fst st) in
  let sz := size (fst st) in
  QrCode.formatBitsField ecl mask = formatFieldSpec ecl mask
  /\ (mask = -1 -> formatFieldSpec ecl mask = 0)
  /\ exists st',
       QrCode.drawFormatBits mask st = Ok st'
       /\ (forall i x y, 0 <= i < 15 -> (x, y) ∈ formatCells sz i ->
             moduleAt st' x y
             = Some (newFilled FormatInfoModule (Z.testbit (formatFieldSpec ecl mask) i)))
       /\ moduleAt st' 8 (sz - 8) = Some newBlack.
Proof.
  intros Hwf Hv Hm ecl sz.
  destruct (formatBitsField_spec ecl mask Hm) as (Hassert & Hspec & Hbound).
  split; [exact Hspec|]. split; [intros ->; reflexivity|].
  assert (Hsz : 17 <= sz) by (destruct Hwf as (Hsv & _); unfold sz; lia).
  rewrite drawFormatBits_loops. fold ecl. fold sz. rewrite Hassert. cbn [Z.eqb negb].
  rewrite formatLoops_writes.
  destruct (writeAll_spec (formatWrites sz (QrCode.formatBitsField ecl mask)) st Hwf
              (formatWrites_nodup _ _ Hsz) (formatWrites_inGrid _ _ _ Hsz eq_refl))
    as (st' & E & _ & _ & Hcells & _).
  exists st'. split; [exact E|]. split.
  - intros i x y Hi Hin.
    pose proof (Hcells _ (formatCells_written sz (QrCode.formatBitsField ecl mask)
                            i x y Hi Hin)) as Hc.
    cbn [fst snd] in Hc. rewrite Hc.
    rewrite JsFacts.getBit_testbit, Hspec; [reflexivity| |lia].
    rewrite Hspec. JsFacts.pow2. lia.
  - apply (Hcells (8, sz - 8, newBlack)). rewrite formatWrites_list. cbv zeta.
    apply list_elem_of_In. cbn [In]. repeat (first [left; reflexivity | right]).
Qed.

(** ** A complete symbol, for the examples *)

Lemma wf_validRefs (st : State) : wf st -> validRefs st.
Proof.
  intros (_ & _ & Hc). unfold validRefs.
  eapply Forall_impl; [exact Hc|]. intros col [_ Hr].
  eapply Forall_impl; [exact Hr|]. intros r [_ (o & Eo & _)]. rewrite Eo. eauto.
Qed.

Lemma applyMask_keeps_function_modules_witness :
  exists m h1 h2,
    QrCode.makeMask 0 (fst exampleState) (snd exampleState) = Ok (m, h1)
    /\ QrCode.applyMask m (fst exampleState) h1 = Ok h2
    /\ forall x y o,
         moduleAt (fst exampleState, snd exampleState) x y = Some o ->
         instanceofFunction (cls o) = true ->
         moduleAt (fst exampleState, h2) x y = Some o.
Proof.
  apply (applyMask_keeps_function_modules 0 (fst exampleState) (snd exampleState)).
  - lia.
  - apply wfb_sound. vm_compute. reflexivity.
Defined.

Lemma applyMask_twice_restores_witness :
  exists m h1 h2 h3,
    QrCode.makeMask 5 (fst exampleState) (snd exampleState) = Ok (m, h1)
    /\ QrCode.applyMask m (fst exampleState) h1 = Ok h2
    /\ QrCode.applyMask m (fst exampleState) h2 = Ok h3
    /\ forall x y o,
         moduleAt (fst exampleState, snd exampleState) x y = Some o ->
         instanceofFilled (cls o) = true ->
         moduleAt (fst exampleState, h3) x y = Some o.
Proof.
  apply (applyMask_twice_restores 5 (fst exampleState) (snd exampleState)).
  - lia.
  - apply wfb_sound. vm_compute. reflexivity.
Defined.

Lemma drawFormatBits_field_witness :
  let ecl := errorCorrectionLevel (fst exampleState) in
  let sz := size (fst exampleState) in
  QrCode.formatBitsField ecl 3 = formatFieldSpec ecl 3
  /\ (3 = -1 -> formatFieldSpec ecl 3 = 0)
  /\ exists st',
       QrCode.drawFormatBits 3 exampleState = Ok st'
       /\ (forall i x y, 0 <= i < 15 -> (x, y) ∈ formatCells sz i ->
             moduleAt st' x y
             = Some (newFilled FormatInfoModule (Z.testbit (formatFieldSpec ecl 3) i)))
       /\ moduleAt st' 8 (sz - 8) = Some newBlack.
Proof.
  apply (drawFormatBits_field 3 exampleState).
  - apply wfb_sound. vm_compute. reflexivity.
  - apply Z.leb_le. vm_compute. reflexivity.
  - lia.
Defined.

Lemma computePenalties_rule4_least_witness :
  let black := numDark exampleState in
  let total := size (fst exampleState) * size (fst exampleState) in
  exists k,
    QrCode.computePenalties_rule4 exampleState = Ok (black, 10 * k)
    /\ 0 <= k
    /\ Z.abs (black * 20 - total * 10) <= (k + 1) * total
    /\ (forall j, 0 <= j < k -> ~ Z.abs (black * 20 - total * 10) <= (j + 1) * total).
Proof.
  apply (computePenalties_rule4_least exampleState).
  - apply wf_validRefs, wfb_sound. vm_compute. reflexivity.
  - intros H. apply Z.eqb_eq in H. vm_compute in H. discriminate H.
Defined.
